(** * mldsutils.pipeline: a pipeline of transformers, resamplers and a final
      estimator

    Shallow embedding of [src/mldsutils/pipeline.py] (class [Pipeline], a
    subclass of the host framework's [sklearn.pipeline.Pipeline]) and the
    properties of its step validation, fitting loop, prediction loop and
    method delegation.

    Conventions of the embedding
    - Python values that flow through the pipeline (feature matrices, label
      vectors, index lists, tuples returned by user code) are terms of
      [value].
    - An estimator object is a record: its visible attributes are optional
      fields ([None] = [hasattr] is false), its mutable fitted state is
      [est_state]; a method takes the state explicitly and a fitting method
      returns the new one.
    - [self] is the record [pipeline]; methods of the class are computations
      in the monad [M], a state monad over [pipeline] in which a raised
      exception keeps the state reached so far (as mutation does in Python).
    - [calls] is a ghost field: the log of the user methods invoked, in
      order. It has no counterpart in the source and is only written.
    - The steps are taken to be distinct objects: the state a fitting method
      leaves in a step is written to [self.steps] where the source assigns
      the fitted step (or, for the final step, right after the call).
    - Printing ([_print_elapsed_time], [_log_message], [verbose]) is not
      modelled. [memory.cache] is modelled as a transparent wrapper. *)

From Stdlib Require Import List String Ascii Bool Arith ZArith Lia Sorted.
Import ListNotations.
Open Scope string_scope.
Open Scope list_scope.

(** ** Python values and exceptions *)

#[warnings="-register-all"]
Inductive value : Type :=
| VNone
| VInt (z : Z)
| VList (vs : list value)
| VTuple (vs : list value).

Definition is_none (v : value) : bool :=
  match v with VNone => true | _ => false end.

Inductive exn : Type :=
| TypeError
| ValueError
| KeyError
| AttributeError
| IndexError
| UnboundLocalError
| UserError (code : nat).

Inductive result (A : Type) : Type :=
| Ok (a : A)
| Raise (e : exn).
Arguments Ok {A} a.
Arguments Raise {A} e.

(** Python dictionaries keep insertion order; keyword arguments are such a
    dictionary. *)
Definition dict (V : Type) := list (string * V).
Definition kwargs := dict value.

Fixpoint dict_get {V} (k : string) (d : dict V) : option V :=
  match d with
  | [] => None
  | (k', v) :: d' => if String.eqb k k' then Some v else dict_get k d'
  end.

Fixpoint dict_set {V} (k : string) (v : V) (d : dict V) : dict V :=
  match d with
  | [] => [(k, v)]
  | (k', v') :: d' =>
      if String.eqb k k' then (k', v) :: d' else (k', v') :: dict_set k v d'
  end.

Definition dict_keys {V} (d : dict V) : list string := map fst d.

(** Iterable unpacking, [a, b = v] and [a, b, c = v]. *)
Definition iter_items (v : value) : result (list value) :=
  match v with
  | VList vs | VTuple vs => Ok vs
  | VNone | VInt _ => Raise TypeError
  end.

Definition unpack2 (v : value) : result (value * value) :=
  match iter_items v with
  | Ok [a; b] => Ok (a, b)
  | Ok _ => Raise ValueError
  | Raise e => Raise e
  end.

Definition unpack3 (v : value) : result (value * value * value) :=
  match iter_items v with
  | Ok [a; b; c] => Ok (a, b, c)
  | Ok _ => Raise ValueError
  | Raise e => Raise e
  end.

(** ** Strings: ['__' in pname] and [pname.split('__', 1)] *)

Definition is_underscore (c : ascii) : bool := Ascii.eqb c "_"%char.

Fixpoint contains_dunder (s : string) : bool :=
  match s with
  | EmptyString => false
  | String c s' =>
      match s' with
      | EmptyString => false
      | String c' _ =>
          (is_underscore c && is_underscore c') || contains_dunder s'
      end
  end.

(** [s.split('__', 1)]: the list has one element when the separator is
    absent and two otherwise (cut at the first occurrence). *)
Fixpoint split_dunder (s : string) : list string :=
  match s with
  | EmptyString => [EmptyString]
  | String c s' =>
      match s' with
      | EmptyString => [s]
      | String c' rest =>
          if is_underscore c && is_underscore c' then [EmptyString; rest]
          else
            match split_dunder s' with
            | [a] => [String c a]
            | a :: tl => String c a :: tl
            | [] => []
            end
      end
  end.

(** ** Estimators and steps *)

Inductive attr : Type :=
| A_fit
| A_transform
| A_fit_transform
| A_fit_resample
| A_fit_predict
| A_predict
| A_predict_proba.

(** A fitting method gets the object's state, [X], [y] and the keyword
    arguments; it returns what the Python method returns together with the
    state it leaves in the object. [fit] returns [self], so only the state.
    [transform] and the predicting methods read the state; the optional
    argument of [transform] is [y] when the caller passes one. *)
Definition fit_method := value -> value -> value -> kwargs -> result value.
Definition fit_out_method :=
  value -> value -> value -> kwargs -> result (value * value).
Definition transform_method := value -> value -> option value -> result value.
Definition predict_method := value -> value -> kwargs -> result value.

Record estimator : Type := mkEstimator {
  est_state : value;
  est_init : value;            (* state of an unfitted copy, for [clone] *)
  is_pipeline : bool;          (* isinstance(t, pipeline.Pipeline) *)
  m_fit : option fit_method;
  m_transform : option transform_method;
  m_fit_transform : option fit_out_method;
  m_fit_resample : option fit_out_method;
  m_fit_predict : option fit_out_method;
  m_predict : option predict_method;
  m_predict_proba : option predict_method
}.

Definition set_state (e : estimator) (st : value) : estimator :=
  mkEstimator st (est_init e) (is_pipeline e) (m_fit e) (m_transform e)
    (m_fit_transform e) (m_fit_resample e) (m_fit_predict e) (m_predict e)
    (m_predict_proba e).

Definition is_some {A} (o : option A) : bool :=
  match o with Some _ => true | None => false end.

Definition est_hasattr (e : estimator) (a : attr) : bool :=
  match a with
  | A_fit => is_some (m_fit e)
  | A_transform => is_some (m_transform e)
  | A_fit_transform => is_some (m_fit_transform e)
  | A_fit_resample => is_some (m_fit_resample e)
  | A_fit_predict => is_some (m_fit_predict e)
  | A_predict => is_some (m_predict e)
  | A_predict_proba => is_some (m_predict_proba e)
  end.

(** The second component of a step: [None], the string ['passthrough'] or an
    object. *)
Inductive step : Type :=
| SNone
| SPassthrough
| SEst (e : estimator).

(** [hasattr(t, name)] for the names the pipeline asks about; [None] and the
    string have none of them. *)
Definition hasattr (t : step) (a : attr) : bool :=
  match t with
  | SEst e => est_hasattr e a
  | SNone | SPassthrough => false
  end.

(** [t is None or t == 'passthrough'] *)
Definition is_skip (t : step) : bool :=
  match t with
  | SNone | SPassthrough => true
  | SEst _ => false
  end.

(** ** The pipeline object and the monad of its methods *)

Inductive event : Type :=
| Call (name : string) (a : attr).

Record pipeline : Type := mkPipeline {
  steps : list (string * step);
  memory : option string;
  to_keep_ind : option value;      (* [None]: the attribute is not set *)
  outliers : option value;
  calls : list event               (* ghost: user methods invoked so far *)
}.

Definition M (A : Type) : Type := pipeline -> result A * pipeline.

Definition ret {A} (a : A) : M A := fun s => (Ok a, s).
Definition raise {A} (e : exn) : M A := fun s => (Raise e, s).
Definition bind {A B} (m : M A) (k : A -> M B) : M B :=
  fun s =>
    match m s with
    | (Ok a, s') => k a s'
    | (Raise e, s') => (Raise e, s')
    end.
Definition lift {A} (r : result A) : M A := fun s => (r, s).
Definition get_self : M pipeline := fun s => (Ok s, s).

Declare Scope pipe_scope.
Delimit Scope pipe_scope with pipe.
Notation "x <- m ;; k" := (bind m (fun x => k))
  (at level 61, m at next level, right associativity) : pipe_scope.
Notation "' pat <- m ;; k" := (bind m (fun x => match x with pat => k end))
  (at level 61, pat pattern, m at next level, right associativity) : pipe_scope.
Notation "m ;; k" := (bind m (fun _ => k))
  (at level 61, right associativity) : pipe_scope.
Open Scope pipe_scope.

Definition set_steps (l : list (string * step)) : M unit :=
  fun s => (Ok tt, mkPipeline l (memory s) (to_keep_ind s) (outliers s) (calls s)).

Definition set_to_keep_ind (v : value) : M unit :=
  fun s => (Ok tt, mkPipeline (steps s) (memory s) (Some v) (outliers s) (calls s)).

Definition set_outliers (v : value) : M unit :=
  fun s => (Ok tt, mkPipeline (steps s) (memory s) (to_keep_ind s) (Some v) (calls s)).

Definition log (ev : event) : M unit :=
  fun s => (Ok tt, mkPipeline (steps s) (memory s) (to_keep_ind s) (outliers s)
                     (calls s ++ [ev])).

(** ** Calling the methods of a step

    A missing attribute raises [AttributeError] before anything runs; a
    present one is logged and run on the object's current state. *)

Definition call_fit (name : string) (e : estimator) (X y : value)
    (kw : kwargs) : M estimator :=
  match m_fit e with
  | None => raise AttributeError
  | Some f =>
      log (Call name A_fit) ;;
      st <- lift (f (est_state e) X y kw) ;;
      ret (set_state e st)
  end.

Definition call_fit_out (a : attr) (m : option fit_out_method) (name : string)
    (e : estimator) (X y : value) (kw : kwargs) : M (value * estimator) :=
  match m with
  | None => raise AttributeError
  | Some f =>
      log (Call name a) ;;
      '(out, st) <- lift (f (est_state e) X y kw) ;;
      ret (out, set_state e st)
  end.

Definition call_transform (name : string) (e : estimator) (X : value)
    (y : option value) : M value :=
  match m_transform e with
  | None => raise AttributeError
  | Some f => log (Call name A_transform) ;; lift (f (est_state e) X y)
  end.

Definition call_predict (a : attr) (m : option predict_method) (name : string)
    (e : estimator) (X : value) (kw : kwargs) : M value :=
  match m with
  | None => raise AttributeError
  | Some f => log (Call name a) ;; lift (f (est_state e) X kw)
  end.

(** ** Host framework: names, iteration, final estimator, cloning *)

Fixpoint has_dup (l : list string) : bool :=
  match l with
  | [] => false
  | x :: l' => existsb (String.eqb x) l' || has_dup l'
  end.

(** Keys of [get_params(deep=False)] of a pipeline. *)
Definition constructor_params : list string := ["steps"; "memory"; "verbose"].

(** Modelled from the spec: [_validate_names] belongs to the host framework's
    base class and is not part of this repository; the data model requires
    step names to be unique, and the host framework also refuses a name
    that is a constructor argument or contains ['__']. Each failure is a
    [ValueError]. *)
Definition _validate_names (names : list string) : result unit :=
  if has_dup names then Raise ValueError
  else if existsb (fun n => existsb (String.eqb n) constructor_params) names
  then Raise ValueError
  else if existsb contains_dunder names then Raise ValueError
  else Ok tt.

Fixpoint enumerate_from {A} (i : nat) (l : list A) : list (nat * A) :=
  match l with
  | [] => []
  | x :: l' => (i, x) :: enumerate_from (S i) l'
  end.

Definition iter_item : Type := nat * string * step.

(** Modelled from the spec: the host framework's [Pipeline._iter], not part
    of this repository: the steps in order with their index, without the
    last one unless [with_final], without [None] and ['passthrough'] when
    [filter_passthrough]. The generator is read off as a list: the loop that
    consumes it only assigns to an index it has already passed. *)
Definition super_iter (l : list (string * step))
    (with_final filter_passthrough : bool) : list iter_item :=
  let stop := if with_final then List.length l else List.length l - 1 in
  flat_map
    (fun '(idx, (name, trans)) =>
       if negb filter_passthrough then [(idx, name, trans)]
       else if negb (is_skip trans) then [(idx, name, trans)]
       else [])
    (enumerate_from 0 (firstn stop l)).

(** [Pipeline._iter] of this repository. *)
Definition _iter (l : list (string * step))
    (with_final filter_passthrough filter_resample : bool) : list iter_item :=
  let it := super_iter l with_final filter_passthrough in
  if filter_resample
  then filter (fun x => negb (hasattr (snd x) A_fit_resample)) it
  else it.

(** ['passthrough' if estimator is None else estimator] *)
Definition none_as_passthrough (estimator : step) : step :=
  match estimator with
  | SNone => SPassthrough
  | t => t
  end.

(** Modelled from the spec: the host framework's property
    [_final_estimator], not part of this repository: the last step, with
    [None] read as ['passthrough']. *)
Definition _final_estimator : M step :=
  self <- get_self ;;
  match rev (steps self) with
  | [] => raise IndexError
  | (_, estimator) :: _ => ret (none_as_passthrough estimator)
  end.

(** [t == 'passthrough'] *)
Definition eq_passthrough (t : step) : bool :=
  match t with SPassthrough => true | _ => false end.

(** Modelled from the spec: the host framework's [clone], not part of this
    repository: an unfitted copy with the same class and parameters. *)
Definition clone (e : estimator) : estimator := set_state e (est_init e).

(** Truth value of [check_memory(self.memory).location]. *)
Definition mem_location (m : option string) : bool :=
  match m with
  | None => false
  | Some EmptyString => false
  | Some (String _ _) => true
  end.

(** [self.steps[idx] = v] *)
Fixpoint list_assign {A} (idx : nat) (v : A) (l : list A) : option (list A) :=
  match l, idx with
  | [], _ => None
  | _ :: l', O => Some (v :: l')
  | x :: l', S i =>
      match list_assign i v l' with
      | Some r => Some (x :: r)
      | None => None
      end
  end.

Definition assign_step (idx : nat) (v : string * step) : M unit :=
  self <- get_self ;;
  match list_assign idx v (steps self) with
  | Some l => set_steps l
  | None => raise IndexError
  end.

(** ** Step validation *)

Definition step_is_pipeline (t : step) : bool :=
  match t with SEst e => is_pipeline e | _ => false end.

(** Body of the loop over the intermediate steps in [_validate_steps]. *)
Definition check_transformer (t : step) : result unit :=
  if is_skip t then Ok tt
  else if negb (hasattr t A_fit || hasattr t A_fit_transform
                || hasattr t A_fit_resample)
          || negb (hasattr t A_transform || hasattr t A_fit_resample)
  then Raise TypeError
  else if step_is_pipeline t then Raise TypeError
  else Ok tt.

Fixpoint for_each {A} (f : A -> result unit) (l : list A) : result unit :=
  match l with
  | [] => Ok tt
  | x :: l' =>
      match f x with
      | Ok _ => for_each f l'
      | Raise e => Raise e
      end
  end.

Definition check_final (estimator : step) : result unit :=
  if negb (is_skip estimator) && negb (hasattr estimator A_fit)
  then Raise TypeError
  else Ok tt.

Definition validate_steps_of (l : list (string * step)) : result unit :=
  match l with
  | [] => Raise ValueError                   (* names, estimators = zip of nothing *)
  | _ :: _ =>
      let names := map fst l in
      let estimators := map snd l in
      match _validate_names names with
      | Raise e => Raise e
      | Ok _ =>
          let transformers := removelast estimators in
          let estimator := last estimators SNone in
          match for_each check_transformer transformers with
          | Raise e => Raise e
          | Ok _ => check_final estimator
          end
      end
  end.

Definition _validate_steps : M unit :=
  self <- get_self ;;
  lift (validate_steps_of (steps self)).

(** ** Fitting *)

(** Modelled from the spec: the host framework's [_fit_transform_one], not
    part of this repository: a transform-capable step is fitted and returns
    the updated features only, through [fit_transform] when the step has it
    and through [fit] followed by [transform] otherwise; the weight is
    [None]. *)
Definition _fit_transform_one (name : string) (transformer : estimator)
    (X y : value) (fit_params : kwargs) : M (value * estimator) :=
  if est_hasattr transformer A_fit_transform
  then call_fit_out A_fit_transform (m_fit_transform transformer) name
         transformer X y fit_params
  else
    fitted <- call_fit name transformer X y fit_params ;;
    res <- call_transform name fitted X None ;;
    ret (res, fitted).

Definition _fit_resample_one (name : string) (sampler : estimator)
    (X y : value) (fit_params : kwargs) : M (value * value * estimator) :=
  '(out, fitted) <- call_fit_out A_fit_resample (m_fit_resample sampler) name
                      sampler X y fit_params ;;
  '(X_res, y_res) <- lift (unpack2 out) ;;
  ret (X_res, y_res, fitted).

(** [{name: {} for name, step in self.steps if step is not None}] *)
Definition init_fit_params_steps (l : list (string * step)) : dict kwargs :=
  fold_left
    (fun d '(name, t) =>
       match t with
       | SNone => d
       | _ => dict_set name [] d
       end)
    l [].

(** The loop over [fit_params.items()]. *)
Fixpoint route_fit_params (fit_params : kwargs) (fit_params_steps : dict kwargs)
  : result (dict kwargs) :=
  match fit_params with
  | [] => Ok fit_params_steps
  | (pname, pval) :: rest =>
      if negb (contains_dunder pname) then Raise ValueError
      else
        match split_dunder pname with
        | [step; param] =>
            match dict_get step fit_params_steps with
            | None => Raise KeyError
            | Some d =>
                route_fit_params rest
                  (dict_set step (dict_set param pval d) fit_params_steps)
            end
        | _ => Raise ValueError
        end
  end.

Definition getitem {V} (d : dict V) (k : string) : M V :=
  match dict_get k d with
  | Some v => ret v
  | None => raise KeyError
  end.

Fixpoint for_loop {A S} (body : A -> S -> M S) (l : list A) (acc : S) : M S :=
  match l with
  | [] => ret acc
  | x :: l' => acc' <- body x acc ;; for_loop body l' acc'
  end.

(** Local variables of the loop of [_fit]: [X], [y] and
    [fitted_transformer], which is unbound until a branch assigns it. *)
Definition fit_locals : Type := value * value * option estimator.

Definition fit_body (mem : bool) (fit_params_steps : dict kwargs)
    (item : iter_item) (loc : fit_locals) : M fit_locals :=
  let '(step_idx, name, transformer) := item in
  let '(X, y, fitted_transformer) := loc in
  match transformer with
  | SNone | SPassthrough => ret loc
  | SEst t =>
      let cloned_transformer := if mem then clone t else t in
      '(X, y, fitted_transformer) <-
        (if (est_hasattr cloned_transformer A_transform
             || est_hasattr cloned_transformer A_fit_transform)
            && negb (est_hasattr cloned_transformer A_fit_resample)
         then
           kw <- getitem fit_params_steps name ;;
           '(X', fitted) <- _fit_transform_one name cloned_transformer X y kw ;;
           ret (X', y, Some fitted)
         else if est_hasattr cloned_transformer A_fit_resample
         then
           kw <- getitem fit_params_steps name ;;
           '(X', y', fitted) <- _fit_resample_one name cloned_transformer X y kw ;;
           ret (X', y', Some fitted)
         else ret (X, y, fitted_transformer)) ;;
      match fitted_transformer with
      | None => raise UnboundLocalError
      | Some fitted =>
          assign_step step_idx (name, SEst fitted) ;;
          ret (X, y, Some fitted)
      end
  end.

(** [self.steps[-1]] *)
Definition last_step : M (string * step) :=
  self <- get_self ;;
  match rev (steps self) with
  | [] => raise IndexError
  | p :: _ => ret p
  end.

Definition _fit (X y : value) (fit_params : kwargs)
  : M (value * value * kwargs) :=
  self <- get_self ;;
  set_steps (steps self) ;;
  _validate_steps ;;
  let mem := mem_location (memory self) in
  fit_params_steps <-
    lift (route_fit_params fit_params (init_fit_params_steps (steps self))) ;;
  '(X, y, _) <-
    for_loop (fit_body mem fit_params_steps)
      (_iter (steps self) false false false) (X, y, None) ;;
  fe <- _final_estimator ;;
  if eq_passthrough fe then ret (X, y, [])
  else
    '(name, _) <- last_step ;;
    kw <- getitem fit_params_steps name ;;
    ret (X, y, kw).

(** Methods called on the final step. One that fits it changes the object
    held in the last entry of [self.steps]. *)
Definition store_final (name : string) (e : estimator) : M unit :=
  self <- get_self ;;
  assign_step (List.length (steps self) - 1) (name, SEst e).

Definition final_fit (t : step) (X y : value) (kw : kwargs) : M unit :=
  match t with
  | SEst e =>
      '(name, _) <- last_step ;;
      e' <- call_fit name e X y kw ;;
      store_final name e'
  | _ => raise AttributeError
  end.

Definition final_fit_out (a : attr) (sel : estimator -> option fit_out_method)
    (t : step) (X y : value) (kw : kwargs) : M value :=
  match t with
  | SEst e =>
      '(name, _) <- last_step ;;
      '(out, e') <- call_fit_out a (sel e) name e X y kw ;;
      store_final name e' ;;
      ret out
  | _ => raise AttributeError
  end.

Definition step_transform (name : string) (t : step) (X : value)
    (y : option value) : M value :=
  match t with
  | SEst e => call_transform name e X y
  | _ => raise AttributeError
  end.

Definition final_predict (a : attr) (sel : estimator -> option predict_method)
    (X : value) (kw : kwargs) : M value :=
  '(name, t) <- last_step ;;
  match t with
  | SEst e => call_predict a (sel e) name e X kw
  | _ => raise AttributeError
  end.

Definition fit (X y : value) (fit_params : kwargs) : M unit :=
  '(Xt, yt, fit_params) <- _fit X y fit_params ;;
  fe <- _final_estimator ;;
  if negb (eq_passthrough fe)
  then final_fit fe Xt yt fit_params
  else ret tt.

Definition fit_transform (X y : value) (fit_params : kwargs) : M value :=
  last <- _final_estimator ;;
  '(Xt, yt, fit_params) <- _fit X y fit_params ;;
  if eq_passthrough last then ret Xt
  else if hasattr last A_fit_transform
  then final_fit_out A_fit_transform m_fit_transform last Xt yt fit_params
  else
    final_fit last Xt yt fit_params ;;
    '(name, fitted) <- last_step ;;
    step_transform name fitted Xt None.

Definition fit_resample (X y : value) (fit_params : kwargs) : M value :=
  last <- _final_estimator ;;
  '(Xt, yt, fit_params) <- _fit X y fit_params ;;
  if eq_passthrough last then ret Xt
  else if hasattr last A_fit_resample
  then final_fit_out A_fit_resample m_fit_resample last Xt yt fit_params
  else ret VNone.

(** ** Delegation *)

(** Modelled from the spec: the host framework's decorator
    [if_delegate_has_method], not part of this repository: reading the
    decorated attribute raises [AttributeError] unless the delegate, here
    [_final_estimator], has an attribute of the same name. *)
Definition if_delegate_has_method (a : attr) : M unit :=
  delegate <- _final_estimator ;;
  if hasattr delegate a then ret tt else raise AttributeError.

Definition fit_predict (X y : value) (fit_params : kwargs) : M value :=
  if_delegate_has_method A_fit_predict ;;
  '(Xt, yt, fit_params) <- _fit X y fit_params ;;
  '(_, final) <- last_step ;;
  final_fit_out A_fit_predict m_fit_predict final Xt yt fit_params.

(** ** Prediction *)

Definition predict_body (item : iter_item) (Xt : value) : M value :=
  let '(_, name, transform) := item in
  if hasattr transform A_fit_resample
  then
    out <- step_transform name transform Xt None ;;
    '(Xt', to_keep_ind, outliers) <- lift (unpack3 out) ;;
    (if negb (is_none to_keep_ind)
     then set_to_keep_ind to_keep_ind ;; set_outliers outliers
     else ret tt) ;;
    ret Xt'
  else step_transform name transform Xt None.

Definition predict (X : value) (predict_params : kwargs) : M value :=
  if_delegate_has_method A_predict ;;
  self <- get_self ;;
  Xt <- for_loop predict_body (_iter (steps self) false true false) X ;;
  final_predict A_predict m_predict Xt predict_params.

Definition predict_proba (X : value) (predict_proba_params : kwargs) : M value :=
  if_delegate_has_method A_predict_proba ;;
  self <- get_self ;;
  Xt <- for_loop predict_body (_iter (steps self) false true false) X ;;
  final_predict A_predict_proba m_predict_proba Xt predict_proba_params.

(** ** Transform *)

Definition transform_body (item : iter_item) (acc : value * value)
  : M (value * value) :=
  let '(_, name, transform) := item in
  let '(Xt, y) := acc in
  out <- step_transform name transform Xt (Some y) ;;
  lift (unpack2 out).

Definition _transform (X y : value) : M value :=
  self <- get_self ;;
  '(Xt, y) <- for_loop transform_body (_iter (steps self) true true true) (X, y) ;;
  ret (VTuple [Xt; y]).

(** The property [transform]: reading it checks the final estimator. *)
Definition transform_property : M unit :=
  fe <- _final_estimator ;;
  if negb (eq_passthrough fe)
  then if hasattr fe A_transform then ret tt else raise AttributeError
  else ret tt.

Definition transform (X y : value) : M value :=
  transform_property ;;
  _transform X y.

(** Reading the public attribute [a] on a pipeline: plain methods are always
    there, decorated ones and the property run their check. *)
Definition getattr_public (a : attr) : M unit :=
  match a with
  | A_fit | A_fit_transform | A_fit_resample => ret tt
  | A_fit_predict | A_predict | A_predict_proba => if_delegate_has_method a
  | A_transform => transform_property
  end.

(** The attribute can be read, and so the method called. *)
Definition exposed (a : attr) (p : pipeline) : bool :=
  match fst (getattr_public a p) with
  | Ok _ => true
  | Raise _ => false
  end.

(** ** The fitting loop, step by step

    [thread_steps] describes the loop of [_fit] by recursion on the
    intermediate steps themselves: [done] are the steps already fitted,
    [todo] the ones still to come, [final] the last entry. A step is fitted
    according to its capability and the fitted object takes its place. *)

Definition fit_step (mem : bool) (kw : kwargs) (name : string) (e : estimator)
    (X y : value) : M (value * value * estimator) :=
  let c := if mem then clone e else e in
  if est_hasattr c A_fit_resample
  then _fit_resample_one name c X y kw
  else '(X', fitted) <- _fit_transform_one name c X y kw ;; ret (X', y, fitted).

Fixpoint thread_steps (mem : bool) (fit_params_steps : dict kwargs)
    (done todo : list (string * step)) (final : string * step)
    (X y : value) : M (value * value) :=
  match todo with
  | [] => ret (X, y)
  | (name, SEst e) :: todo' =>
      kw <- getitem fit_params_steps name ;;
      '(X', y', fitted) <- fit_step mem kw name e X y ;;
      set_steps (done ++ (name, SEst fitted) :: todo' ++ [final]) ;;
      thread_steps mem fit_params_steps (done ++ [(name, SEst fitted)]) todo'
        final X' y'
  | st :: todo' =>
      thread_steps mem fit_params_steps (done ++ [st]) todo' final X y
  end.

Definition _fit_spec (X y : value) (fit_params : kwargs)
  : M (value * value * kwargs) :=
  self <- get_self ;;
  _validate_steps ;;
  fit_params_steps <-
    lift (route_fit_params fit_params (init_fit_params_steps (steps self))) ;;
  match rev (steps self) with
  | [] => raise IndexError
  | final :: before =>
      '(X, y) <- thread_steps (mem_location (memory self)) fit_params_steps []
                   (rev before) final X y ;;
      if is_skip (snd final) then ret (X, y, [])
      else kw <- getitem fit_params_steps (fst final) ;; ret (X, y, kw)
  end.

(** ** The baseline pipeline

    The host framework's pipeline, which knows no resampler, in the words of
    the specification: validation asks every intermediate step for [fit] or
    [fit_transform] and for [transform]; fitting threads [X] through each
    step's fit-and-transform in order, leaves [y] as it is and fits the
    final estimator on the transformed data; prediction and [transform]
    thread [X] through each step's [transform]. *)

Definition baseline_check_transformer (t : step) : result unit :=
  if is_skip t then Ok tt
  else if negb (hasattr t A_fit || hasattr t A_fit_transform)
          || negb (hasattr t A_transform)
  then Raise TypeError
  else Ok tt.

Definition baseline_validate_steps_of (l : list (string * step)) : result unit :=
  match l with
  | [] => Raise ValueError
  | _ :: _ =>
      match _validate_names (map fst l) with
      | Raise e => Raise e
      | Ok _ =>
          match for_each baseline_check_transformer (removelast (map snd l)) with
          | Raise e => Raise e
          | Ok _ => check_final (last (map snd l) SNone)
          end
      end
  end.

Fixpoint baseline_thread (mem : bool) (fit_params_steps : dict kwargs)
    (done todo : list (string * step)) (final : string * step)
    (X y : value) : M value :=
  match todo with
  | [] => ret X
  | (name, SEst e) :: todo' =>
      kw <- getitem fit_params_steps name ;;
      '(X', fitted) <- _fit_transform_one name (if mem then clone e else e)
                         X y kw ;;
      set_steps (done ++ (name, SEst fitted) :: todo' ++ [final]) ;;
      baseline_thread mem fit_params_steps (done ++ [(name, SEst fitted)])
        todo' final X' y
  | st :: todo' =>
      baseline_thread mem fit_params_steps (done ++ [st]) todo' final X y
  end.

Definition baseline__fit (X y : value) (fit_params : kwargs)
  : M (value * kwargs) :=
  self <- get_self ;;
  lift (baseline_validate_steps_of (steps self)) ;;
  fit_params_steps <-
    lift (route_fit_params fit_params (init_fit_params_steps (steps self))) ;;
  match rev (steps self) with
  | [] => raise IndexError
  | final :: before =>
      Xt <- baseline_thread (mem_location (memory self)) fit_params_steps []
              (rev before) final X y ;;
      if is_skip (snd final) then ret (Xt, [])
      else kw <- getitem fit_params_steps (fst final) ;; ret (Xt, kw)
  end.

Definition baseline_fit (X y : value) (fit_params : kwargs) : M unit :=
  '(Xt, fit_params) <- baseline__fit X y fit_params ;;
  fe <- _final_estimator ;;
  if negb (eq_passthrough fe)
  then final_fit fe Xt y fit_params
  else ret tt.

Fixpoint baseline_thread_transform (l : list (string * step)) (Xt : value)
  : M value :=
  match l with
  | [] => ret Xt
  | (name, t) :: l' =>
      if is_skip t then baseline_thread_transform l' Xt
      else
        Xt' <- step_transform name t Xt None ;;
        baseline_thread_transform l' Xt'
  end.

Definition baseline_predict (X : value) (predict_params : kwargs) : M value :=
  if_delegate_has_method A_predict ;;
  self <- get_self ;;
  Xt <- baseline_thread_transform (removelast (steps self)) X ;;
  final_predict A_predict m_predict Xt predict_params.

Definition baseline_predict_proba (X : value) (params : kwargs) : M value :=
  if_delegate_has_method A_predict_proba ;;
  self <- get_self ;;
  Xt <- baseline_thread_transform (removelast (steps self)) X ;;
  final_predict A_predict_proba m_predict_proba Xt params.

Definition baseline_transform (X : value) : M value :=
  transform_property ;;
  self <- get_self ;;
  baseline_thread_transform (steps self) X.

(** ** Descriptions used by the statements *)

Definition with_steps (p : pipeline) (l : list (string * step)) : pipeline :=
  mkPipeline l (memory p) (to_keep_ind p) (outliers p) (calls p).

Definition event_attr (ev : event) : attr :=
  match ev with Call _ a => a end.

(** Shapes of steps that validation refuses. *)
Definition fit_like (t : step) : bool :=
  hasattr t A_fit || hasattr t A_fit_transform || hasattr t A_fit_resample.

Definition transform_like (t : step) : bool :=
  hasattr t A_transform || hasattr t A_fit_resample.

Definition bad_intermediate (t : step) : bool :=
  negb (is_skip t)
  && (negb (fit_like t) || negb (transform_like t) || step_is_pipeline t).

Definition bad_final (t : step) : bool :=
  negb (is_skip t) && negb (hasattr t A_fit).

(** What the final step must offer for the pipeline to offer [a]. *)
Definition final_supports (a : attr) (final : step) : bool :=
  match a with
  | A_fit | A_fit_transform | A_fit_resample => true
  | A_fit_predict | A_predict | A_predict_proba => hasattr final a
  | A_transform => is_skip final || hasattr final A_transform
  end.

(** A keyword argument that the loop over the fit parameters can store:
    its name has the separator and its prefix is a key of the dictionary
    built from the steps. *)
Definition routable (keys : list string) (pname : string) : bool :=
  contains_dunder pname
  && match split_dunder pname with
     | [step; _] => existsb (String.eqb step) keys
     | _ => false
     end.

(** [transform] threaded through the steps with [X] and [y], as
    [_transform] does on the steps it keeps. *)
Fixpoint thread_transform_xy (l : list (string * step)) (Xt y : value)
  : M (value * value) :=
  match l with
  | [] => ret (Xt, y)
  | (name, t) :: l' =>
      out <- step_transform name t Xt (Some y) ;;
      '(Xt', y') <- lift (unpack2 out) ;;
      thread_transform_xy l' Xt' y'
  end.

Definition kept_by_transform (st : string * step) : bool :=
  negb (is_skip (snd st)) && negb (hasattr (snd st) A_fit_resample).

Definition not_resample (st : string * step) : bool :=
  negb (hasattr (snd st) A_fit_resample).

(** What the [transform] methods return at prediction time: the features
    after the last step and, for each resample-capable step in order, the
    kept-row and excluded-row indices it returned. *)
Fixpoint transform_outputs (l : list (string * step)) (Xt : value)
  : result (value * list (value * value)) :=
  match l with
  | [] => Ok (Xt, [])
  | (_, SEst e) :: l' =>
      match m_transform e with
      | None => Raise AttributeError
      | Some f =>
          match f (est_state e) Xt None with
          | Raise ex => Raise ex
          | Ok out =>
              if est_hasattr e A_fit_resample
              then
                match unpack3 out with
                | Raise ex => Raise ex
                | Ok (Xt', k, o) =>
                    match transform_outputs l' Xt' with
                    | Ok (Xl, recs) => Ok (Xl, (k, o) :: recs)
                    | Raise ex => Raise ex
                    end
                end
              else transform_outputs l' out
          end
      end
  | _ :: l' => transform_outputs l' Xt
  end.

(** The bookkeeping fields after a call: those of the last step that
    returned kept-row indices other than [None], the old ones if there is no
    such step. *)
Definition bookkeeping (recs : list (value * value))
    (old : option value * option value) : option value * option value :=
  match rev (filter (fun r => negb (is_none (fst r))) recs) with
  | [] => old
  | (k, o) :: _ => (Some k, Some o)
  end.

Definition transform_calls (l : list (string * step)) : list event :=
  map (fun st => Call (fst st) A_transform)
      (filter (fun st => negb (is_skip (snd st))) l).

Definition is_predict_time_attr (a : attr) : bool :=
  match a with
  | A_transform | A_predict | A_predict_proba => true
  | _ => false
  end.

(** ** Sample estimators *)

Definition wrap (tag : Z) (X : value) : value := VList [VInt tag; X].

(** A transformer in the host framework's style: [fit] and a [transform]
    of [X] alone that returns the features. *)
Definition scaler : estimator :=
  mkEstimator VNone VNone false
    (Some (fun _ _ _ _ => Ok (VInt 1)))
    (Some (fun _ X _ => Ok X))
    None None None None None.

(** A resampler as the module asks for it: [fit_resample] and a
    [transform] that returns features, kept rows and excluded rows. It
    reports no kept rows when it gets no rows. *)
Definition remover : estimator :=
  mkEstimator VNone VNone false
    None
    (Some (fun _ X _ =>
             match X with
             | VList [] => Ok (VTuple [X; VNone; VList [VInt 7]])
             | _ => Ok (VTuple [wrap 20 X; VList [VInt 0]; VList [VInt 1]])
             end))
    None
    (Some (fun _ X y _ => Ok (VTuple [wrap 21 X; wrap 22 y], VInt 2)))
    None None None.

(** An object with [fit] only. *)
Definition fit_only : estimator :=
  mkEstimator VNone VNone false
    (Some (fun _ _ _ _ => Ok (VInt 3)))
    None None None None None None.

Definition regressor : estimator :=
  mkEstimator VNone VNone false
    (Some (fun _ X y _ => Ok (VTuple [X; y])))
    None None None None
    (Some (fun st X _ => Ok (VTuple [st; X])))
    None.

Definition new_pipeline (l : list (string * step)) : pipeline :=
  mkPipeline l None None None [].

Definition sample_pipeline : pipeline :=
  new_pipeline
    [("sc", SEst scaler); ("rm", SEst remover); ("reg", SEst regressor)].

Definition rows3 : value := VList [VInt 1; VInt 2; VInt 3].

Definition fit_only_pipeline : pipeline :=
  new_pipeline [("only", SEst fit_only); ("reg", SEst regressor)].

Definition both_pipeline : pipeline :=
  new_pipeline [("rm", SEst remover); ("reg", SEst regressor)].

Definition scalers_pipeline : pipeline :=
  new_pipeline [("a", SEst scaler); ("b", SEst scaler)].

(** An intermediate step that is itself a host-framework pipeline: it has
    [fit] and [transform] and no [fit_resample]. *)
Definition nested : estimator :=
  mkEstimator VNone VNone true
    (Some (fun _ _ _ _ => Ok (VInt 4)))
    (Some (fun _ X _ => Ok X))
    None None None None None.

Definition nested_pipeline : pipeline :=
  new_pipeline [("inner", SEst nested); ("reg", SEst regressor)].

Definition no_rows : value := VList [].

(** ** Auxiliary notions of the proofs *)

(** [touches P m]: running [m] leaves the steps and the memory as they are
    and only appends to the log calls of methods that satisfy [P]. *)
Definition touches (P : attr -> bool) {A} (m : M A) : Prop :=
  forall s,
    steps (snd (m s)) = steps s
    /\ memory (snd (m s)) = memory s
    /\ exists evs, calls (snd (m s)) = calls s ++ evs
                   /\ Forall (fun ev => P (event_attr ev) = true) evs.

Definition any_attr (_ : attr) : bool := true.

(** The items [_iter] yields for the loop of [_fit], counted from [i]. *)
Definition items_from (i : nat) (l : list (string * step)) : list iter_item :=
  map (fun '(idx, (name, t)) => (idx, name, t)) (enumerate_from i l).

(** The items [_iter] yields when it filters ['passthrough'] and [None]. *)
Definition items_kept (i : nat) (l : list (string * step)) : list iter_item :=
  flat_map
    (fun '(idx, (name, trans)) =>
       if negb (is_skip trans) then [(idx, name, trans)] else [])
    (enumerate_from i l).

Definition item_not_resample (x : iter_item) : bool :=
  negb (hasattr (snd x) A_fit_resample).

Definition drop_fitted (loc : fit_locals) : M (value * value) :=
  let '(X, y, _) := loc in ret (X, y).

(** A step of the baseline's kind: no [fit_resample], not a Pipeline. *)
Definition plain_step (st : string * step) : Prop :=
  hasattr (snd st) A_fit_resample = false /\ step_is_pipeline (snd st) = false.

Definition record_step (k o : value) (old : option value * option value)
  : option value * option value :=
  if is_none k then old else (Some k, Some o).

(** The pipeline after a prediction loop that returned [recs] and logged
    [evs]. *)
Definition after_predict_loop (s : pipeline) (recs : list (value * value))
    (evs : list event) : pipeline :=
  mkPipeline (steps s) (memory s)
    (fst (bookkeeping recs (to_keep_ind s, outliers s)))
    (snd (bookkeeping recs (to_keep_ind s, outliers s)))
    (calls s ++ evs).

(** [fit_params_steps[step][param]] *)
Definition lookup2 (d : dict kwargs) (step param : string) : option value :=
  match dict_get step d with
  | Some kw => dict_get param kw
  | None => None
  end.

Definition routable_in (d : dict kwargs) (p : string * value) : Prop :=
  routable (dict_keys d) (fst p) = true.

(** ** Further notions: what fitting may change *)

(** Methods that a fit-style call may invoke on a step. *)
Definition is_fit_time_attr (a : attr) : bool :=
  match a with
  | A_fit | A_transform | A_fit_transform | A_fit_resample => true
  | _ => false
  end.

Definition is_fit_predict_time_attr (a : attr) : bool :=
  match a with
  | A_fit_predict => true
  | _ => is_fit_time_attr a
  end.

(** [keeps_fields P m]: running [m] leaves the memory and the bookkeeping
    fields as they are and only appends to the log calls of methods that
    satisfy [P]; the steps may change. *)
Definition keeps_fields (P : attr -> bool) {A} (m : M A) : Prop :=
  forall s,
    memory (snd (m s)) = memory s
    /\ to_keep_ind (snd (m s)) = to_keep_ind s
    /\ outliers (snd (m s)) = outliers s
    /\ exists evs, calls (snd (m s)) = calls s ++ evs
                   /\ Forall (fun ev => P (event_attr ev) = true) evs.

(** [same_step p p']: the same name and either the same placeholder or the
    same object in a possibly different fitted state. *)
Definition refitted (t t' : step) : Prop :=
  match t, t' with
  | SNone, SNone => True
  | SPassthrough, SPassthrough => True
  | SEst e, SEst e' => exists st, e' = set_state e st
  | _, _ => False
  end.

Definition same_step (p p' : string * step) : Prop :=
  fst p = fst p' /\ refitted (snd p) (snd p').

(** An object whose methods, where it has them, return normally, and whose
    [fit_resample] returns something that unpacks into two values. *)
Definition well_behaved (e : estimator) : Prop :=
  (forall f, m_fit e = Some f ->
     forall st X y kw, exists st', f st X y kw = Ok st')
  /\ (forall f, m_transform e = Some f ->
        forall st X y, exists out, f st X y = Ok out)
  /\ (forall f, m_fit_transform e = Some f ->
        forall st X y kw, exists out st', f st X y kw = Ok (out, st'))
  /\ (forall f, m_fit_resample e = Some f ->
        forall st X y kw, exists out st' p,
          f st X y kw = Ok (out, st') /\ unpack2 out = Ok p).


(** [step is not None] *)
Definition is_not_none (t : step) : bool :=
  match t with SNone => false | _ => true end.

Definition names_step (name : string) (st : string * step) : bool :=
  String.eqb name (fst st) && is_not_none (snd st).

Definition item_index (x : iter_item) : nat := fst (fst x).

Definition not_skip (st : string * step) : bool := negb (is_skip (snd st)).

(** A step with its fitted state forgotten. *)
Definition unfitted (t : step) : step :=
  match t with
  | SEst e => SEst (set_state e VNone)
  | _ => t
  end.

Definition unfitted_step (p : string * step) : string * step :=
  (fst p, unfitted (snd p)).

Definition is_transform_attr (a : attr) : bool :=
  match a with
  | A_transform => true
  | _ => false
  end.

(** [ignores_steps m]: [m] neither reads nor writes the steps. *)
Definition ignores_steps {A} (m : M A) : Prop :=
  forall s l, m (with_steps s l) = (fst (m s), with_steps (snd (m s)) l).

(** [same_outcome r r2]: the same result, and the same final state when the
    result is a value. *)
Definition same_outcome {A} (r r2 : result A * pipeline) : Prop :=
  fst r2 = fst r /\ forall v, fst r = Ok v -> snd r2 = snd r.



(** ** Further sample pipelines *)

Definition passthrough_final_pipeline : pipeline :=
  new_pipeline [("a", SEst scaler); ("out", SPassthrough)].

Definition skipping_pipeline : pipeline :=
  new_pipeline
    [("a", SEst scaler); ("skip", SPassthrough); ("reg", SEst regressor)].

Definition cached_pipeline : pipeline :=
  mkPipeline [("a", SEst scaler); ("reg", SEst regressor)] (Some "cache")
    None None [].

(** * Properties *)

(** ** The monad *)

Lemma bind_run {A B} (m : M A) (k : A -> M B) (s : pipeline) :
  bind m k s =
  match m s with
  | (Ok a, s') => k a s'
  | (Raise e, s') => (Raise e, s')
  end.
Proof. reflexivity. Qed.

Lemma bind_ok {A B} (m : M A) (k : A -> M B) s a s' :
  m s = (Ok a, s') -> bind m k s = k a s'.
Proof. intros H. rewrite bind_run, H. reflexivity. Qed.

Lemma bind_raise {A B} (m : M A) (k : A -> M B) s e s' :
  m s = (Raise e, s') -> bind m k s = (Raise e, s').
Proof. intros H. rewrite bind_run, H. reflexivity. Qed.

(** [touches P m]: running [m] leaves the steps and the memory as they are
    and only appends to the log calls of methods that satisfy [P]. *)

Lemma touches_nothing P {A} (m : M A) :
  (forall s, snd (m s) = s) -> touches P m.
Proof.
  intros H s. rewrite H. repeat split. exists []. rewrite app_nil_r. auto.
Qed.

Lemma touches_ret P {A} (a : A) : touches P (ret a).
Proof. apply touches_nothing. reflexivity. Qed.

Lemma touches_raise P {A} (e : exn) : touches P (@raise A e).
Proof. apply touches_nothing. reflexivity. Qed.

Lemma touches_lift P {A} (r : result A) : touches P (lift r).
Proof. apply touches_nothing. reflexivity. Qed.

Lemma touches_get_self P : touches P get_self.
Proof. apply touches_nothing. reflexivity. Qed.

Lemma touches_getitem P {V} (d : dict V) k : touches P (getitem d k).
Proof.
  apply touches_nothing. intros s. unfold getitem.
  destruct (dict_get k d); reflexivity.
Qed.

Lemma touches_log (P : attr -> bool) name a :
  P a = true -> touches P (log (Call name a)).
Proof.
  intros H s. simpl. repeat split. exists [Call name a]. split; auto.
Qed.

Lemma touches_set_to_keep_ind P v : touches P (set_to_keep_ind v).
Proof.
  intros s. simpl. repeat split. exists []. rewrite app_nil_r. auto.
Qed.

Lemma touches_set_outliers P v : touches P (set_outliers v).
Proof.
  intros s. simpl. repeat split. exists []. rewrite app_nil_r. auto.
Qed.

Lemma touches_bind P {A B} (m : M A) (k : A -> M B) :
  touches P m -> (forall a, touches P (k a)) -> touches P (bind m k).
Proof.
  intros Hm Hk s. rewrite bind_run.
  destruct (Hm s) as (Hs & Hmem & evs & Hc & Hall).
  destruct (m s) as [[a|e] s1]; simpl in *.
  - destruct (Hk a s1) as (Hs' & Hmem' & evs' & Hc' & Hall').
    split; [congruence|]. split; [congruence|].
    exists (evs ++ evs'). split.
    + rewrite Hc', Hc, app_assoc. reflexivity.
    + apply Forall_app. auto.
  - split; [assumption|]. split; [assumption|]. exists evs. auto.
Qed.

Lemma touches_weaken (P Q : attr -> bool) {A} (m : M A) :
  (forall a, P a = true -> Q a = true) -> touches P m -> touches Q m.
Proof.
  intros HPQ Hm s. destruct (Hm s) as (Hs & Hmem & evs & Hc & Hall).
  repeat split; auto. exists evs. split; auto.
  revert Hall. apply Forall_impl. intros ev. apply HPQ.
Qed.

Lemma touches_for_loop P {A S} (body : A -> S -> M S) (l : list A) :
  (forall x acc, touches P (body x acc)) ->
  forall acc, touches P (for_loop body l acc).
Proof.
  intros Hb. induction l as [|x l IH]; intros acc; simpl.
  - apply touches_ret.
  - apply touches_bind; auto.
Qed.

Create HintDb touches.
#[local] Hint Resolve touches_ret touches_raise touches_lift touches_get_self
  touches_getitem touches_set_to_keep_ind touches_set_outliers : touches.

Ltac touches_tac :=
  repeat first
    [ apply touches_bind; [|intros]
    | apply touches_log; reflexivity
    | solve [auto with touches]
    | match goal with
      | |- touches _ (match ?x with _ => _ end) => destruct x
      | |- touches _ (if ?b then _ else _) => destruct b
      | |- touches _ (let '(_, _) := ?x in _) => destruct x
      end ].

Lemma touches_call_fit P name e X y kw :
  P A_fit = true -> touches P (call_fit name e X y kw).
Proof.
  intros H. unfold call_fit. destruct (m_fit e); [|auto with touches].
  apply touches_bind; [apply touches_log; assumption|intros].
  touches_tac.
Qed.

Lemma touches_call_fit_out P a m name e X y kw :
  P a = true -> touches P (call_fit_out a m name e X y kw).
Proof.
  intros H. unfold call_fit_out. destruct m; [|auto with touches].
  apply touches_bind; [apply touches_log; assumption|intros].
  touches_tac.
Qed.

Lemma touches_call_transform P name e X y :
  P A_transform = true -> touches P (call_transform name e X y).
Proof.
  intros H. unfold call_transform. destruct (m_transform e); [|auto with touches].
  apply touches_bind; [apply touches_log; assumption|intros].
  touches_tac.
Qed.

Lemma touches_call_predict P a m name e X kw :
  P a = true -> touches P (call_predict a m name e X kw).
Proof.
  intros H. unfold call_predict. destruct m; [|auto with touches].
  apply touches_bind; [apply touches_log; assumption|intros].
  touches_tac.
Qed.

Lemma touches_step_transform P name t X y :
  P A_transform = true -> touches P (step_transform name t X y).
Proof.
  intros H. destruct t; simpl; auto with touches.
  apply touches_call_transform; assumption.
Qed.

Lemma touches_fit_transform_one name e X y kw :
  touches any_attr (_fit_transform_one name e X y kw).
Proof.
  unfold _fit_transform_one. destruct (est_hasattr e A_fit_transform).
  - apply touches_call_fit_out; reflexivity.
  - apply touches_bind; [apply touches_call_fit; reflexivity|intros].
    apply touches_bind; [apply touches_call_transform; reflexivity|intros].
    auto with touches.
Qed.

Lemma touches_fit_resample_one name e X y kw :
  touches any_attr (_fit_resample_one name e X y kw).
Proof.
  unfold _fit_resample_one.
  apply touches_bind; [apply touches_call_fit_out; reflexivity|intros [out f]].
  touches_tac.
Qed.

Lemma touches_fit_step mem kw name e X y :
  touches any_attr (fit_step mem kw name e X y).
Proof.
  unfold fit_step. destruct (est_hasattr _ A_fit_resample).
  - apply touches_fit_resample_one.
  - apply touches_bind; [apply touches_fit_transform_one|intros [X' f]].
    auto with touches.
Qed.

(** ** Step validation *)

Lemma for_each_ok {A} (f : A -> result unit) (l : list A) :
  for_each f l = Ok tt <-> Forall (fun x => f x = Ok tt) l.
Proof.
  induction l as [|x l IH]; simpl.
  - split; auto.
  - destruct (f x) as [[]|e] eqn:Hx.
    + rewrite IH. split; intros H.
      * constructor; assumption.
      * inversion H; assumption.
    + split; intros H; [discriminate|].
      inversion H; subst. congruence.
Qed.

Lemma for_each_cases {A} (f : A -> result unit) (l : list A) :
  for_each f l = Ok tt \/
  exists x e, In x l /\ f x = Raise e /\ for_each f l = Raise e.
Proof.
  induction l as [|x l IH]; simpl; [now left|].
  destruct (f x) as [[]|e] eqn:Hx.
  - destruct IH as [IH|(x' & e & Hin & Hf & Hr)]; [now left|].
    right. exists x', e. auto.
  - right. exists x, e. auto.
Qed.

Lemma check_transformer_spec (t : step) :
  check_transformer t = if bad_intermediate t then Raise TypeError else Ok tt.
Proof.
  unfold check_transformer, bad_intermediate, fit_like, transform_like.
  destruct (is_skip t); simpl; [reflexivity|].
  destruct (negb (hasattr t A_fit || hasattr t A_fit_transform
                  || hasattr t A_fit_resample)); simpl; [reflexivity|].
  destruct (negb (hasattr t A_transform || hasattr t A_fit_resample));
    simpl; [reflexivity|].
  destruct (step_is_pipeline t); reflexivity.
Qed.

Lemma check_final_spec (t : step) :
  check_final t = if bad_final t then Raise TypeError else Ok tt.
Proof. reflexivity. Qed.

Lemma validate_steps_of_ok (l : list (string * step)) :
  validate_steps_of l = Ok tt ->
  l <> [] /\ _validate_names (map fst l) = Ok tt /\
  Forall (fun t => bad_intermediate t = false) (removelast (map snd l)) /\
  bad_final (last (map snd l) SNone) = false.
Proof.
  unfold validate_steps_of. destruct l as [|st l]; [discriminate|].
  destruct (_validate_names _) as [[]|e]; [|discriminate].
  destruct (for_each _ _) as [[]|e] eqn:Hfe; [|discriminate].
  rewrite check_final_spec. intros Hfin.
  repeat split; try discriminate.
  - apply for_each_ok in Hfe. revert Hfe. apply Forall_impl.
    intros t. rewrite check_transformer_spec.
    destruct (bad_intermediate t); [discriminate|reflexivity].
  - destruct (bad_final _); [discriminate|reflexivity].
Qed.

(** C8 (as amended): with admissible names, [_validate_steps] raises
    [TypeError] exactly when an intermediate step that is not
    [None]/['passthrough'] lacks a fit-like capability, or lacks a
    transform/resample-like capability, or is itself a Pipeline, or when the
    final step is not [None]/['passthrough'] and lacks [fit]; it passes
    otherwise, and it leaves the pipeline as it was. *)
Theorem C8_validate_steps_shapes :
  forall p : pipeline,
    steps p <> [] ->
    _validate_names (map fst (steps p)) = Ok tt ->
    let bad :=
      (exists t, In t (removelast (map snd (steps p)))
                 /\ bad_intermediate t = true)
      \/ bad_final (last (map snd (steps p)) SNone) = true in
    (fst (_validate_steps p) = Raise TypeError <-> bad)
    /\ (fst (_validate_steps p) = Ok tt <-> ~ bad)
    /\ snd (_validate_steps p) = p.
Proof.
  intros p Hne Hnames bad.
  assert (Hcases : (bad /\ validate_steps_of (steps p) = Raise TypeError)
                   \/ (~ bad /\ validate_steps_of (steps p) = Ok tt)).
  { unfold validate_steps_of, bad.
    destruct (steps p) as [|st l] eqn:Hl; [congruence|].
    rewrite Hnames.
    destruct (for_each_cases check_transformer (removelast (map snd (st :: l))))
      as [Hok|(t & e & Hin & Ht & Hr)].
    - rewrite Hok, check_final_spec.
      apply for_each_ok in Hok.
      destruct (bad_final (last (map snd (st :: l)) SNone)) eqn:Hfin.
      + left. split; [right; reflexivity|reflexivity].
      + right. split; [|reflexivity].
        intros [(t & Hin & Hbad)|Hbf]; [|discriminate].
        rewrite Forall_forall in Hok. specialize (Hok t Hin).
        rewrite check_transformer_spec, Hbad in Hok. discriminate.
    - rewrite Hr. rewrite check_transformer_spec in Ht.
      destruct (bad_intermediate t) eqn:Hbad; [|discriminate].
      injection Ht as <-. left. split; [|reflexivity].
      left. exists t. auto. }
  unfold _validate_steps, bind, get_self, lift. simpl.
  destruct Hcases as [[Hb Hv]|[Hnb Hv]]; rewrite Hv; simpl.
  - split; [|split]; [split; auto| |reflexivity].
    split; [discriminate|]. intros Hnb. contradiction.
  - split; [|split]; [|split; auto|reflexivity].
    split; [discriminate|]. intros Hb. contradiction.
Qed.

Lemma C8_validate_steps_shapes_witness :
  steps sample_pipeline <> []
  /\ _validate_names (map fst (steps sample_pipeline)) = Ok tt
  /\ snd (_validate_steps sample_pipeline) = sample_pipeline.
Proof.
  split; [discriminate|]. split; [reflexivity|].
  apply (C8_validate_steps_shapes sample_pipeline); [discriminate|reflexivity].
Defined.

(** C8, counterexample: an intermediate step that has [fit] but neither
    [transform] nor [fit_resample] lacks only one of the two capabilities
    and is not a Pipeline, the names and the final step are fine, and
    validation raises [TypeError] all the same. *)
Lemma C8_counterexample_one_capability_missing :
  fit_like (SEst fit_only) = true
  /\ step_is_pipeline (SEst fit_only) = false
  /\ _validate_names (map fst (steps fit_only_pipeline)) = Ok tt
  /\ bad_final (last (map snd (steps fit_only_pipeline)) SNone) = false
  /\ _validate_steps fit_only_pipeline = (Raise TypeError, fit_only_pipeline).
Proof. repeat split. Qed.

(** ** The loop of [_fit] *)



Lemma bind_assoc {A B C} (m : M A) (k : A -> M B) (h : B -> M C) s :
  bind (bind m k) h s = bind m (fun a => bind (k a) h) s.
Proof.
  rewrite !bind_run. destruct (m s) as [[a|e] s']; reflexivity.
Qed.

Lemma bind_ext {A B} (m : M A) (k k' : A -> M B) s :
  (forall a s', k a s' = k' a s') -> bind m k s = bind m k' s.
Proof.
  intros H. rewrite !bind_run. destruct (m s) as [[a|e] s']; auto.
Qed.

Lemma est_hasattr_set_state e st a :
  est_hasattr (set_state e st) a = est_hasattr e a.
Proof. destruct a; reflexivity. Qed.

Lemma est_hasattr_cloned (mem : bool) e a :
  est_hasattr (if mem then clone e else e) a = est_hasattr e a.
Proof. destruct mem; [apply est_hasattr_set_state|reflexivity]. Qed.

Lemma list_assign_middle {A} (done : list A) x v rest :
  list_assign (List.length done) v (done ++ x :: rest) = Some (done ++ v :: rest).
Proof.
  induction done as [|d done IH]; simpl; [reflexivity|].
  rewrite IH. reflexivity.
Qed.

Lemma assign_step_middle done x v rest s :
  steps s = done ++ x :: rest ->
  assign_step (List.length done) v s = set_steps (done ++ v :: rest) s.
Proof.
  intros H. unfold assign_step. rewrite bind_run. simpl.
  rewrite H, list_assign_middle. reflexivity.
Qed.

Lemma firstn_init {A} (l : list A) (x : A) :
  firstn (List.length (l ++ [x]) - 1) (l ++ [x]) = l.
Proof.
  rewrite length_app. simpl.
  replace (List.length l + 1 - 1) with (List.length l + 0) by lia.
  rewrite firstn_app_2. simpl. apply app_nil_r.
Qed.

Lemma iter_fit (l : list (string * step)) (final : string * step) :
  _iter (l ++ [final]) false false false = items_from 0 l.
Proof.
  unfold _iter, super_iter, items_from. rewrite firstn_init.
  generalize 0 as i. induction l as [|[name t] l IH]; intros i; simpl.
  - reflexivity.
  - rewrite IH. reflexivity.
Qed.

Lemma fit_body_valid mem fps done name e rest X y fitted s :
  steps s = done ++ (name, SEst e) :: rest ->
  bad_intermediate (SEst e) = false ->
  fit_body mem fps (List.length done, name, SEst e) (X, y, fitted) s =
  bind (getitem fps name)
    (fun kw =>
       bind (fit_step mem kw name e X y)
         (fun '(X', y', f) =>
            bind (set_steps (done ++ (name, SEst f) :: rest))
              (fun _ => ret (X', y', Some f)))) s.
Proof.
  intros Hs Ht.
  unfold bad_intermediate, fit_like, transform_like in Ht. simpl in Ht.
  unfold fit_body, fit_step. rewrite !est_hasattr_cloned.
  set (c := if mem then clone e else e).
  unfold getitem. simpl est_hasattr in *.
  destruct (is_some (m_fit_resample e)) eqn:Hres.
  - rewrite andb_false_r.
    destruct (dict_get name fps) as [kw|]; [|reflexivity].
    cbv beta iota delta [bind ret].
    pose proof (touches_fit_resample_one name c X y kw s) as (Hst & _).
    destruct (_fit_resample_one name c X y kw s) as [[[[X' y'] f]|ex] s1];
      simpl in *; [|reflexivity].
    rewrite (assign_step_middle done (name, SEst e) _ rest) by congruence.
    reflexivity.
  - rewrite andb_true_r.
    assert (Htr : is_some (m_transform e) = true).
    { destruct (is_some (m_transform e)); [reflexivity|].
      rewrite orb_true_r in Ht. discriminate. }
    rewrite Htr. simpl.
    destruct (dict_get name fps) as [kw|]; [|reflexivity].
    cbv beta iota delta [bind ret].
    pose proof (touches_fit_transform_one name c X y kw s) as (Hst & _).
    destruct (_fit_transform_one name c X y kw s) as [[[X' f]|ex] s1];
      simpl in *; [|reflexivity].
    rewrite (assign_step_middle done (name, SEst e) _ rest) by congruence.
    reflexivity.
Qed.

Lemma for_loop_cons {A S} (body : A -> S -> M S) x l acc :
  for_loop body (x :: l) acc = bind (body x acc) (fun acc' => for_loop body l acc').
Proof. reflexivity. Qed.

Lemma items_from_cons i name t l :
  items_from i ((name, t) :: l) = (i, name, t) :: items_from (S i) l.
Proof. reflexivity. Qed.

Lemma fit_loop_thread mem fps final :
  forall todo done X y fitted s,
    steps s = done ++ todo ++ [final] ->
    Forall (fun st => bad_intermediate (snd st) = false) todo ->
    bind (for_loop (fit_body mem fps) (items_from (List.length done) todo)
            (X, y, fitted)) drop_fitted s
    = thread_steps mem fps done todo final X y s.
Proof.
  induction todo as [|[name t] todo IH]; intros done X y fitted s Hs Hv.
  - reflexivity.
  - inversion Hv as [|? ? Ht Hv']; subst. simpl in Ht.
    assert (Hlen : forall v : string * step,
              S (List.length done) = List.length (done ++ [v])).
    { intros v. rewrite length_app. simpl. lia. }
    rewrite items_from_cons, for_loop_cons, bind_assoc, bind_run.
    destruct t as [| |e].
    + change (fit_body mem fps (List.length done, name, SNone) (X, y, fitted) s)
        with (@Ok fit_locals (X, y, fitted), s).
      change (thread_steps mem fps done ((name, SNone) :: todo) final X y s)
        with (thread_steps mem fps (done ++ [(name, SNone)]) todo final X y s).
      rewrite (Hlen (name, SNone)).
      apply IH; auto. rewrite Hs, <- app_assoc. reflexivity.
    + change (fit_body mem fps (List.length done, name, SPassthrough)
                (X, y, fitted) s)
        with (@Ok fit_locals (X, y, fitted), s).
      change (thread_steps mem fps done ((name, SPassthrough) :: todo) final
                X y s)
        with (thread_steps mem fps (done ++ [(name, SPassthrough)]) todo final
                X y s).
      rewrite (Hlen (name, SPassthrough)).
      apply IH; auto. rewrite Hs, <- app_assoc. reflexivity.
    + rewrite (fit_body_valid mem fps done name e (todo ++ [final])) by auto.
      change (thread_steps mem fps done ((name, SEst e) :: todo) final X y s)
        with (bind (getitem fps name)
                (fun kw =>
                   bind (fit_step mem kw name e X y)
                     (fun '(X', y', f) =>
                        bind (set_steps (done ++ (name, SEst f) :: todo ++ [final]))
                          (fun _ => thread_steps mem fps
                                      (done ++ [(name, SEst f)]) todo final
                                      X' y'))) s).
      cbv beta iota delta [bind ret].
      destruct (getitem fps name s) as [[kw|ex] s0]; [|reflexivity].
      destruct (fit_step mem kw name e X y s0) as [[[[X' y'] f]|ex] s1];
        [|reflexivity].
      simpl set_steps. cbv beta iota.
      rewrite (Hlen (name, SEst f)).
      apply IH; auto. simpl. rewrite <- app_assoc. reflexivity.
Qed.

Lemma thread_steps_shape mem fps final :
  forall todo done X y s,
    steps s = done ++ todo ++ [final] ->
    exists l', steps (snd (thread_steps mem fps done todo final X y s)) = l' ++ [final]
               /\ map fst l' = map fst (done ++ todo).
Proof.
  induction todo as [|[name t] todo IH]; intros done X y s Hs.
  - simpl. exists done. rewrite app_nil_r. auto.
  - assert (Hnames : forall t', map fst ((done ++ [(name, t')]) ++ todo)
                       = map fst (done ++ (name, t) :: todo)).
    { intros t'. rewrite <- app_assoc, !map_app. reflexivity. }
    destruct t as [| |e].
    + change (thread_steps mem fps done ((name, SNone) :: todo) final X y s)
        with (thread_steps mem fps (done ++ [(name, SNone)]) todo final X y s).
      rewrite <- (Hnames SNone). apply IH.
      rewrite Hs, <- app_assoc. reflexivity.
    + change (thread_steps mem fps done ((name, SPassthrough) :: todo) final
                X y s)
        with (thread_steps mem fps (done ++ [(name, SPassthrough)]) todo final
                X y s).
      rewrite <- (Hnames SPassthrough). apply IH.
      rewrite Hs, <- app_assoc. reflexivity.
    + simpl thread_steps. cbv beta iota delta [bind ret].
      pose proof (touches_getitem any_attr fps name s) as (Hs0 & _).
      destruct (getitem fps name s) as [[kw|ex] s0]; simpl in Hs0.
      * pose proof (touches_fit_step mem kw name e X y s0) as (Hs1 & _).
        destruct (fit_step mem kw name e X y s0) as [[[[X' y'] f]|ex] s1];
          simpl in Hs1.
        -- simpl set_steps. cbv beta iota.
           rewrite <- (Hnames (SEst f)). apply IH.
           simpl. rewrite <- app_assoc. reflexivity.
        -- simpl. exists (done ++ (name, SEst e) :: todo).
           rewrite <- app_assoc. split; [congruence|reflexivity].
      * simpl. exists (done ++ (name, SEst e) :: todo).
        rewrite <- app_assoc. split; [congruence|reflexivity].
Qed.

Lemma rev_cons_split {A} (l : list A) x before :
  rev l = x :: before -> l = rev before ++ [x].
Proof.
  intros H. rewrite <- (rev_involutive l), H. reflexivity.
Qed.

Lemma final_estimator_last l final s :
  steps s = l ++ [final] ->
  _final_estimator s =
  (Ok (none_as_passthrough (snd final)), s).
Proof.
  intros H. unfold _final_estimator. rewrite bind_run. simpl.
  rewrite H, rev_app_distr. simpl. destruct final. reflexivity.
Qed.

Lemma last_step_last l final s :
  steps s = l ++ [final] -> last_step s = (Ok final, s).
Proof.
  intros H. unfold last_step. rewrite bind_run. simpl.
  rewrite H, rev_app_distr. reflexivity.
Qed.

Lemma eq_passthrough_norm t :
  eq_passthrough (none_as_passthrough t) = is_skip t.
Proof. destruct t; reflexivity. Qed.

Lemma set_steps_same s : set_steps (steps s) s = (Ok tt, s).
Proof. destruct s. reflexivity. Qed.

Lemma removelast_map_snd_app (l : list (string * step)) final :
  removelast (map snd (l ++ [final])) = map snd l.
Proof. rewrite map_app. simpl. apply removelast_last. Qed.

Lemma fit_refines X y fit_params s :
  _fit X y fit_params s = _fit_spec X y fit_params s.
Proof.
  unfold _fit, _fit_spec, _validate_steps.
  cbv beta iota delta [bind get_self lift].
  rewrite set_steps_same. cbv beta iota.
  destruct (validate_steps_of (steps s)) as [[]|ex] eqn:Hval; [|reflexivity].
  apply validate_steps_of_ok in Hval as (Hne & _ & Hmid & _).
  destruct (route_fit_params fit_params (init_fit_params_steps (steps s)))
    as [fps|ex]; [|reflexivity].
  destruct (rev (steps s)) as [|final before] eqn:Hrev.
  { destruct (steps s); [congruence|].
    simpl in Hrev. apply app_eq_nil in Hrev as [_ Hrev]. discriminate. }
  apply rev_cons_split in Hrev.
  rewrite Hrev, iter_fit.
  rewrite Hrev, removelast_map_snd_app in Hmid.
  assert (Hloop := fit_loop_thread (mem_location (memory s)) fps final
                     (rev before) [] X y None s Hrev).
  simpl List.length in Hloop.
  rewrite <- Hloop.
  2:{ apply Forall_map in Hmid. exact Hmid. }
  pose proof (thread_steps_shape (mem_location (memory s)) fps final
                (rev before) [] X y s Hrev) as (l' & Hl' & _).
  rewrite <- Hloop in Hl'.
  2:{ apply Forall_map in Hmid. exact Hmid. }
  revert Hl'. cbv beta iota delta [bind].
  destruct (for_loop _ _ _ s) as [[[[X' y'] f]|ex] s1]; [|reflexivity].
  simpl. intros Hl'.
  rewrite (final_estimator_last l' final s1 Hl'), eq_passthrough_norm.
  destruct (is_skip (snd final)); [reflexivity|].
  rewrite (last_step_last l' final s1 Hl').
  destruct final as [fname ft]. reflexivity.
Qed.

(** ** The baseline *)


Lemma for_each_ext {A} (f g : A -> result unit) (l : list A) :
  Forall (fun x => f x = g x) l -> for_each f l = for_each g l.
Proof.
  induction 1 as [|x l Hx _ IH]; simpl; [reflexivity|].
  rewrite Hx, IH. reflexivity.
Qed.

Lemma check_transformer_baseline (t : step) :
  hasattr t A_fit_resample = false -> step_is_pipeline t = false ->
  check_transformer t = baseline_check_transformer t.
Proof.
  intros Hres Hp. unfold check_transformer, baseline_check_transformer.
  rewrite Hres, Hp, !orb_false_r.
  destruct (is_skip t); [reflexivity|].
  destruct (negb (hasattr t A_fit || hasattr t A_fit_transform)
            || negb (hasattr t A_transform)); reflexivity.
Qed.

Lemma removelast_map {A B} (f : A -> B) (l : list A) :
  removelast (map f l) = map f (removelast l).
Proof.
  induction l as [|x l IH]; [reflexivity|].
  destruct l as [|x' l]; [reflexivity|].
  change (f x :: removelast (map f (x' :: l)) = f x :: map f (removelast (x' :: l))).
  rewrite IH. reflexivity.
Qed.

Lemma validate_baseline (l : list (string * step)) :
  Forall plain_step (removelast l) ->
  validate_steps_of l = baseline_validate_steps_of l.
Proof.
  intros H. unfold validate_steps_of, baseline_validate_steps_of.
  destruct l as [|st l]; [reflexivity|].
  destruct (_validate_names _); [|reflexivity].
  rewrite (for_each_ext check_transformer baseline_check_transformer).
  - reflexivity.
  - rewrite removelast_map. apply Forall_map.
    revert H. apply Forall_impl. intros [n t] [Hr Hp].
    apply check_transformer_baseline; assumption.
Qed.

Lemma thread_steps_baseline mem fps final :
  forall todo done X y s,
    Forall plain_step todo ->
    thread_steps mem fps done todo final X y s
    = bind (baseline_thread mem fps done todo final X y)
        (fun X' => ret (X', y)) s.
Proof.
  induction todo as [|[name t] todo IH]; intros done X y s Hp.
  - reflexivity.
  - inversion Hp as [|? ? [Hres _] Hp']; subst.
    destruct t as [| |e].
    + apply (IH (done ++ [(name, SNone)])); assumption.
    + apply (IH (done ++ [(name, SPassthrough)])); assumption.
    + change (est_hasattr e A_fit_resample = false) in Hres.
      simpl thread_steps. simpl baseline_thread.
      unfold fit_step. rewrite est_hasattr_cloned, Hres.
      cbv beta iota delta [bind ret].
      destruct (getitem fps name s) as [[kw|ex] s0]; [|reflexivity].
      destruct (_fit_transform_one name _ X y kw s0) as [[[X' f]|ex] s1];
        [|reflexivity].
      simpl set_steps. cbv beta iota.
      apply (IH (done ++ [(name, SEst f)])); assumption.
Qed.

Lemma fit_baseline X y fit_params s :
  Forall plain_step (removelast (steps s)) ->
  _fit X y fit_params s
  = bind (baseline__fit X y fit_params)
      (fun '(Xt, kw) => ret (Xt, y, kw)) s.
Proof.
  intros Hp. rewrite fit_refines.
  unfold _fit_spec, baseline__fit, _validate_steps.
  cbv beta iota delta [bind get_self lift].
  rewrite (validate_baseline _ Hp).
  destruct (baseline_validate_steps_of (steps s)) as [[]|ex]; [|reflexivity].
  destruct (route_fit_params _ _) as [fps|ex]; [|reflexivity].
  destruct (rev (steps s)) as [|final before] eqn:Hrev; [reflexivity|].
  apply rev_cons_split in Hrev.
  rewrite Hrev, removelast_last in Hp.
  rewrite (thread_steps_baseline _ _ _ _ _ _ _ _ Hp).
  cbv beta iota delta [bind ret].
  destruct (baseline_thread _ _ _ _ _ _ _ s) as [[Xt|ex] s1]; [|reflexivity].
  destruct (is_skip (snd final)); [reflexivity|].
  destruct (getitem fps (fst final) s1) as [[kw|ex] s2]; reflexivity.
Qed.

Lemma removelast_firstn_length {A} (l : list A) :
  firstn (List.length l - 1) l = removelast l.
Proof.
  rewrite removelast_firstn_len. f_equal. lia.
Qed.

Lemma iter_predict (l : list (string * step)) :
  _iter l false true false = items_kept 0 (removelast l).
Proof.
  unfold _iter, super_iter, items_kept.
  rewrite removelast_firstn_length. reflexivity.
Qed.

Lemma predict_loop_baseline :
  forall l i X s,
    Forall plain_step l ->
    for_loop predict_body (items_kept i l) X s
    = baseline_thread_transform l X s.
Proof.
  induction l as [|[name t] l IH]; intros i X s Hp.
  - reflexivity.
  - inversion Hp as [|? ? [Hres _] Hp']; subst. simpl in Hres.
    unfold items_kept. simpl enumerate_from. simpl flat_map.
    fold (items_kept (S i) l).
    simpl baseline_thread_transform.
    destruct (is_skip t) eqn:Hskip; simpl negb; cbv iota.
    + apply IH. assumption.
    + simpl app. rewrite for_loop_cons.
      unfold predict_body at 1. rewrite Hres.
      cbv beta iota delta [bind].
      destruct (step_transform name t X None s) as [[X'|ex] s1]; [|reflexivity].
      apply IH. assumption.
Qed.

(** C2 (as amended): on a pipeline none of whose intermediate steps
    exposes [fit_resample] or is itself a Pipeline, [fit], [predict] and
    [predict_proba] do exactly what the baseline pipeline does on the same
    steps and inputs, result, final state and calls alike: [X] is threaded
    through each step's fit-and-transform in order, [y] is left as it is and
    the final estimator is fitted on the transformed data. *)
Theorem C2_transform_only_matches_baseline X y kw s :
  Forall plain_step (removelast (steps s)) ->
  fit X y kw s = baseline_fit X y kw s
  /\ predict X kw s = baseline_predict X kw s
  /\ predict_proba X kw s = baseline_predict_proba X kw s.
Proof.
  intros Hp. split; [|split].
  - unfold fit, baseline_fit. rewrite !bind_run, (fit_baseline _ _ _ _ Hp).
    rewrite bind_run.
    destruct (baseline__fit X y kw s) as [[[Xt fp]|ex] s1]; reflexivity.
  - unfold predict, baseline_predict.
    cbv beta iota delta [bind get_self].
    destruct (if_delegate_has_method A_predict s) as [[[]|ex] s1] eqn:Hd;
      [|reflexivity].
    assert (s1 = s) as ->.
    { revert Hd. unfold if_delegate_has_method, _final_estimator.
      cbv beta iota delta [bind get_self ret raise].
      destruct (rev (steps s)) as [|[n t] r]; [discriminate|].
      destruct (hasattr _ _); congruence. }
    rewrite iter_predict, (predict_loop_baseline _ 0 X s Hp). reflexivity.
  - unfold predict_proba, baseline_predict_proba.
    cbv beta iota delta [bind get_self].
    destruct (if_delegate_has_method A_predict_proba s) as [[[]|ex] s1] eqn:Hd;
      [|reflexivity].
    assert (s1 = s) as ->.
    { revert Hd. unfold if_delegate_has_method, _final_estimator.
      cbv beta iota delta [bind get_self ret raise].
      destruct (rev (steps s)) as [|[n t] r]; [discriminate|].
      destruct (hasattr _ _); congruence. }
    rewrite iter_predict, (predict_loop_baseline _ 0 X s Hp). reflexivity.
Qed.

Lemma C2_transform_only_matches_baseline_witness :
  Forall plain_step (removelast (steps scalers_pipeline))
  /\ fit rows3 rows3 [] scalers_pipeline
     = baseline_fit rows3 rows3 [] scalers_pipeline.
Proof.
  split; [repeat constructor|].
  apply (C2_transform_only_matches_baseline rows3 rows3 [] scalers_pipeline).
  repeat constructor.
Defined.

(** C2, counterexample: with two plain transformers, the baseline
    [transform] returns the features and this pipeline's [transform], which
    unpacks every step's result into [X] and [y], raises on data of three
    rows; and an intermediate step that is a host-framework pipeline is
    fitted by the baseline and refused here. *)
Lemma C2_counterexample_transform_and_nesting :
  Forall plain_step (removelast (steps scalers_pipeline))
  /\ fst (baseline_transform rows3 scalers_pipeline) = Ok rows3
  /\ fst (transform rows3 VNone scalers_pipeline) = Raise ValueError
  /\ Forall (fun st => hasattr (snd st) A_fit_resample = false)
       (removelast (steps nested_pipeline))
  /\ fst (baseline_fit rows3 rows3 [] nested_pipeline) = Ok tt
  /\ fst (fit rows3 rows3 [] nested_pipeline) = Raise TypeError.
Proof.
  split; [repeat constructor|]. split; [reflexivity|]. split; [reflexivity|].
  split; [repeat constructor|]. split; reflexivity.
Qed.

(** ** Prediction *)



Lemma bookkeeping_cons k o recs old :
  bookkeeping ((k, o) :: recs) old = bookkeeping recs (record_step k o old).
Proof.
  unfold bookkeeping, record_step. simpl filter.
  destruct (is_none k) eqn:Hk; simpl negb; cbv iota.
  - reflexivity.
  - simpl rev.
    destruct (rev (filter _ recs)) as [|[k' o'] r]; reflexivity.
Qed.

Lemma predict_loop_outputs :
  forall l i X s Xt recs,
    transform_outputs l X = Ok (Xt, recs) ->
    for_loop predict_body (items_kept i l) X s
    = (Ok Xt, after_predict_loop s recs (transform_calls l)).
Proof.
  induction l as [|[name t] l IH]; intros i X s Xt recs H.
  - simpl in H. injection H as <- <-. unfold after_predict_loop.
    simpl. rewrite app_nil_r. destruct s; reflexivity.
  - unfold items_kept. simpl enumerate_from. simpl flat_map.
    fold (items_kept (S i) l).
    destruct t as [| |e].
    + simpl. apply IH. exact H.
    + simpl. apply IH. exact H.
    + simpl negb. cbv iota. simpl app. rewrite for_loop_cons.
      simpl in H.
      unfold predict_body at 1. simpl hasattr. simpl step_transform.
      unfold call_transform.
      destruct (m_transform e) as [f|]; [|discriminate].
      cbv beta iota delta [bind lift ret log].
      destruct (f (est_state e) X None) as [out|ex]; [|discriminate].
      destruct (is_some (m_fit_resample e)).
      * destruct (unpack3 out) as [[[Xt' k] o]|ex]; [|discriminate].
        destruct (transform_outputs l Xt') as [[Xl recs']|ex] eqn:Hrest;
          [|discriminate].
        injection H as <- <-.
        destruct (is_none k) eqn:Hk; simpl negb; cbv iota.
        -- simpl. rewrite (IH _ _ _ _ _ Hrest). f_equal.
           unfold after_predict_loop. rewrite bookkeeping_cons.
           unfold record_step. rewrite Hk. simpl.
           rewrite <- app_assoc. reflexivity.
        -- simpl. rewrite (IH _ _ _ _ _ Hrest). f_equal.
           unfold after_predict_loop. rewrite bookkeeping_cons.
           unfold record_step. rewrite Hk. simpl.
           rewrite <- app_assoc. reflexivity.
      * rewrite (IH _ _ _ _ _ H). f_equal.
        unfold after_predict_loop. simpl. rewrite <- app_assoc. reflexivity.
Qed.

Lemma predict_loop_raises :
  forall l i X s ex,
    transform_outputs l X = Raise ex ->
    fst (for_loop predict_body (items_kept i l) X s) = Raise ex.
Proof.
  induction l as [|[name t] l IH]; intros i X s ex H.
  - discriminate.
  - unfold items_kept. simpl enumerate_from. simpl flat_map.
    fold (items_kept (S i) l).
    destruct t as [| |e].
    + simpl. apply IH. exact H.
    + simpl. apply IH. exact H.
    + simpl negb. cbv iota. simpl app. rewrite for_loop_cons.
      simpl in H.
      unfold predict_body at 1. simpl hasattr. simpl step_transform.
      unfold call_transform.
      destruct (m_transform e) as [f|].
      2:{ destruct (is_some (m_fit_resample e)); simpl; congruence. }
      cbv beta iota delta [bind lift ret log].
      destruct (f (est_state e) X None) as [out|ex'].
      2:{ destruct (is_some (m_fit_resample e)); simpl; congruence. }
      destruct (is_some (m_fit_resample e)).
      * destruct (unpack3 out) as [[[Xt' k] o]|ex']; [|simpl; congruence].
        destruct (transform_outputs l Xt') as [[Xl recs']|ex'] eqn:Hrest;
          [discriminate|].
        injection H as <-.
        destruct (is_none k); simpl; apply IH; exact Hrest.
      * apply IH. exact H.
Qed.

Lemma touches_predict_body item Xt :
  touches is_predict_time_attr (predict_body item Xt).
Proof.
  destruct item as [[idx name] t]. unfold predict_body.
  destruct (hasattr t A_fit_resample).
  - apply touches_bind; [apply touches_step_transform; reflexivity|intros out].
    apply touches_bind; [auto with touches|intros [[Xt' k] o]].
    apply touches_bind; [|auto with touches].
    destruct (negb (is_none k)); [|auto with touches].
    apply touches_bind; auto with touches.
  - apply touches_step_transform; reflexivity.
Qed.

Lemma touches_final_estimator P : touches P _final_estimator.
Proof.
  apply touches_nothing. intros s. unfold _final_estimator.
  rewrite bind_run. simpl. destruct (rev (steps s)) as [|[n t] r]; reflexivity.
Qed.

Lemma touches_last_step P : touches P last_step.
Proof.
  apply touches_nothing. intros s. unfold last_step.
  rewrite bind_run. simpl. destruct (rev (steps s)); reflexivity.
Qed.

Lemma touches_if_delegate P a : touches P (if_delegate_has_method a).
Proof.
  unfold if_delegate_has_method.
  apply touches_bind; [apply touches_final_estimator|intros t].
  destruct (hasattr t a); auto with touches.
Qed.

Lemma touches_final_predict P a sel X kw :
  P a = true -> touches P (final_predict a sel X kw).
Proof.
  intros H. unfold final_predict.
  apply touches_bind; [apply touches_last_step|intros [name t]].
  destruct t; auto with touches. apply touches_call_predict; assumption.
Qed.

Lemma touches_predict_like a sel X kw :
  is_predict_time_attr a = true ->
  touches is_predict_time_attr
    (if_delegate_has_method a ;;
     self <- get_self ;;
     Xt <- for_loop predict_body (_iter (steps self) false true false) X ;;
     final_predict a sel Xt kw).
Proof.
  intros Ha.
  apply touches_bind; [apply touches_if_delegate|intros _].
  apply touches_bind; [auto with touches|intros self].
  apply touches_bind.
  - apply touches_for_loop. intros. apply touches_predict_body.
  - intros Xt. apply touches_final_predict. assumption.
Qed.

Lemma if_delegate_ok a before name t s :
  steps s = before ++ [(name, t)] -> hasattr t a = true ->
  if_delegate_has_method a s = (Ok tt, s).
Proof.
  intros Hs Ha. unfold if_delegate_has_method.
  rewrite bind_run, (final_estimator_last before (name, t) s Hs).
  assert (H : hasattr (none_as_passthrough t) a = true).
  { destruct t; simpl in *; congruence. }
  unfold snd. rewrite H. reflexivity.
Qed.

Lemma predict_like_run a (sel : estimator -> option predict_method)
    X kw s before name e f Xt recs :
  steps s = before ++ [(name, SEst e)] ->
  est_hasattr e a = true ->
  sel e = Some f ->
  transform_outputs before X = Ok (Xt, recs) ->
  (if_delegate_has_method a ;;
   self <- get_self ;;
   Xt <- for_loop predict_body (_iter (steps self) false true false) X ;;
   final_predict a sel Xt kw) s
  = (f (est_state e) Xt kw,
     after_predict_loop s recs (transform_calls before ++ [Call name a])).
Proof.
  intros Hs Ha Hsel Hout.
  cbv beta iota delta [bind get_self].
  rewrite (if_delegate_ok a before name (SEst e) s Hs Ha).
  rewrite iter_predict, Hs, removelast_last.
  rewrite (predict_loop_outputs _ 0 _ _ _ _ Hout).
  unfold final_predict. cbv beta iota delta [bind].
  rewrite (last_step_last before (name, SEst e)) by exact Hs.
  unfold call_predict. rewrite Hsel.
  cbv beta iota delta [bind lift log].
  unfold after_predict_loop. simpl. rewrite <- app_assoc. reflexivity.
Qed.

(** ** Transform *)

Lemma iter_transform (l : list (string * step)) :
  _iter l true true true = filter item_not_resample (items_kept 0 l).
Proof.
  unfold _iter, super_iter, items_kept. rewrite firstn_all. reflexivity.
Qed.

Lemma transform_loop_thread :
  forall l i Xt y s,
    for_loop transform_body (filter item_not_resample (items_kept i l)) (Xt, y) s
    = thread_transform_xy (filter kept_by_transform l) Xt y s.
Proof.
  induction l as [|[name t] l IH]; intros i Xt y s.
  - reflexivity.
  - unfold items_kept. simpl enumerate_from. simpl flat_map.
    fold (items_kept (S i) l).
    unfold kept_by_transform at 1. simpl filter at 2. simpl snd.
    fold kept_by_transform.
    destruct (is_skip t) eqn:Hskip; simpl negb; cbv iota.
    + simpl app. simpl andb. cbv iota. apply IH.
    + simpl app. simpl filter. unfold item_not_resample at 1. simpl snd.
      destruct (hasattr t A_fit_resample); simpl negb; simpl andb; cbv iota.
      * apply IH.
      * rewrite for_loop_cons. simpl thread_transform_xy.
        unfold transform_body at 1.
        cbv beta iota delta [bind].
        destruct (step_transform name t Xt (Some y) s) as [[out|ex] s1];
          [|reflexivity].
        unfold lift. destruct (unpack2 out) as [[Xt' y']|ex]; [|reflexivity].
        apply IH.
Qed.

Lemma transform_refines X y s :
  _transform X y s
  = bind (thread_transform_xy (filter kept_by_transform (steps s)) X y)
      (fun '(Xt, y') => ret (VTuple [Xt; y'])) s.
Proof.
  unfold _transform. cbv beta iota delta [bind get_self].
  rewrite iter_transform, transform_loop_thread. reflexivity.
Qed.

Lemma step_transform_with_steps name t X y s l :
  step_transform name t X y (with_steps s l)
  = (fst (step_transform name t X y s),
     with_steps (snd (step_transform name t X y s)) l).
Proof.
  destruct t as [| |e]; try reflexivity.
  simpl. unfold call_transform. destruct (m_transform e) as [f|]; [|reflexivity].
  cbv beta iota delta [bind lift log]. reflexivity.
Qed.

Lemma thread_transform_with_steps l2 :
  forall l X y s,
    thread_transform_xy l X y (with_steps s l2)
    = (fst (thread_transform_xy l X y s),
       with_steps (snd (thread_transform_xy l X y s)) l2).
Proof.
  induction l as [|[name t] l IH]; intros X y s.
  - reflexivity.
  - simpl thread_transform_xy. cbv beta iota delta [bind].
    rewrite step_transform_with_steps.
    destruct (step_transform name t X (Some y) s) as [[out|ex] s1];
      [|reflexivity].
    simpl fst. simpl snd. unfold lift.
    destruct (unpack2 out) as [[Xt' y']|ex]; [|reflexivity].
    apply IH.
Qed.

Lemma filter_kept_not_resample (l : list (string * step)) :
  filter kept_by_transform (filter not_resample l) = filter kept_by_transform l.
Proof.
  induction l as [|[name t] l IH]; [reflexivity|].
  simpl. unfold not_resample at 1, kept_by_transform at 2. simpl snd.
  destruct (hasattr t A_fit_resample) eqn:Hres; simpl.
  - rewrite andb_false_r. exact IH.
  - unfold kept_by_transform at 1. simpl snd. rewrite Hres, andb_true_r.
    simpl. destruct (negb (is_skip t)); rewrite IH; reflexivity.
Qed.

(** C10: [_transform] applies only the steps that are neither
    ['passthrough']/[None] nor resample-capable, in order: each of them has
    its [transform] called with both [X] and [y] and must return both, and
    the result is the pair reached at the end. Steps that expose
    [fit_resample] contribute nothing: removing them from the pipeline
    changes neither the result nor the methods called. *)
Theorem C10_transform_skips_resamplers :
  forall X y s,
    _transform X y s
    = bind (thread_transform_xy (filter kept_by_transform (steps s)) X y)
        (fun '(Xt, y') => ret (VTuple [Xt; y'])) s
    /\ fst (_transform X y (with_steps s (filter not_resample (steps s))))
       = fst (_transform X y s)
    /\ calls (snd (_transform X y (with_steps s (filter not_resample (steps s)))))
       = calls (snd (_transform X y s)).
Proof.
  intros X y s.
  split; [apply transform_refines|].
  rewrite !transform_refines.
  cbv beta iota delta [bind].
  simpl steps. rewrite filter_kept_not_resample, thread_transform_with_steps.
  destruct (thread_transform_xy _ X y s) as [[[Xt y']|ex] s1]; simpl; auto.
Qed.

(** ** Delegation *)

Lemma if_delegate_run b s before name t :
  steps s = before ++ [(name, t)] ->
  if_delegate_has_method b s
  = (if hasattr t b then Ok tt else Raise AttributeError, s).
Proof.
  intros Hs. unfold if_delegate_has_method. cbv beta iota delta [bind].
  rewrite (final_estimator_last before (name, t) s Hs). unfold snd.
  replace (hasattr (none_as_passthrough t) b) with (hasattr t b)
    by (destruct t; reflexivity).
  destruct (hasattr t b); reflexivity.
Qed.

(** C6 (as amended): [fit_predict], [predict] and [predict_proba] can be
    read on a pipeline exactly when the final step has the attribute of the
    same name; [transform] exactly when the final step is
    [None]/['passthrough'] or has [transform]; [fit], [fit_transform] and
    [fit_resample] are plain methods and can always be read. Reading an
    attribute leaves the pipeline as it was. *)
Theorem C6_method_exposure :
  forall a s before name t,
    steps s = before ++ [(name, t)] ->
    exposed a s = final_supports a t /\ snd (getattr_public a s) = s.
Proof.
  intros a s before name t Hs. unfold exposed.
  destruct a; simpl getattr_public; simpl final_supports;
    try (split; reflexivity);
    try (rewrite (if_delegate_run _ s before name t Hs);
         destruct (hasattr t _); split; reflexivity).
  unfold transform_property. cbv beta iota delta [bind].
  rewrite (final_estimator_last before (name, t) s Hs). unfold snd.
  rewrite eq_passthrough_norm.
  destruct t as [| |e]; simpl; try (split; reflexivity).
  destruct (is_some (m_transform e)); split; reflexivity.
Qed.

Lemma C6_method_exposure_witness :
  steps sample_pipeline
  = [("sc", SEst scaler); ("rm", SEst remover)] ++ [("reg", SEst regressor)]
  /\ exposed A_predict_proba sample_pipeline
     = final_supports A_predict_proba (SEst regressor).
Proof.
  split; [reflexivity|].
  apply (C6_method_exposure A_predict_proba sample_pipeline
           [("sc", SEst scaler); ("rm", SEst remover)] "reg" (SEst regressor)).
  reflexivity.
Defined.

(** C6, counterexample: the final step has neither [fit_resample] nor
    [fit_transform], and both methods can be read on the pipeline;
    [fit_resample] can even be called. *)
Lemma C6_counterexample_plain_methods :
  hasattr (SEst regressor) A_fit_resample = false
  /\ hasattr (SEst regressor) A_fit_transform = false
  /\ steps sample_pipeline
     = [("sc", SEst scaler); ("rm", SEst remover)] ++ [("reg", SEst regressor)]
  /\ exposed A_fit_resample sample_pipeline = true
  /\ exposed A_fit_transform sample_pipeline = true
  /\ fst (fit_resample rows3 rows3 [] sample_pipeline) = Ok VNone.
Proof. repeat split. Qed.

(** ** fit_resample on a final step without fit_resample *)

(** C9: when the final step, as [_final_estimator] gives it, is not
    ['passthrough'] and has no [fit_resample], [fit_resample] does what
    [_fit] does and nothing more: if [_fit] succeeds the call returns [None]
    in the state [_fit] left (so no method of the final step has run), and
    an error of [_fit] is passed on. *)
Theorem C9_fit_resample_returns_none :
  forall X y kw s fe,
    fst (_final_estimator s) = Ok fe ->
    eq_passthrough fe = false ->
    hasattr fe A_fit_resample = false ->
    fit_resample X y kw s
    = (match fst (_fit X y kw s) with
       | Ok _ => Ok VNone
       | Raise ex => Raise ex
       end, snd (_fit X y kw s)).
Proof.
  intros X y kw s fe Hfe Hp Hres. unfold fit_resample.
  cbv beta iota delta [bind].
  assert (Hs : _final_estimator s = (Ok fe, s)).
  { destruct (_final_estimator s) as [r s'] eqn:E. simpl in *.
    rewrite Hfe. f_equal.
    revert E. unfold _final_estimator. cbv beta iota delta [bind get_self].
    destruct (rev (steps s)) as [|[n t] r']; intros E; injection E; auto. }
  rewrite Hs.
  destruct (_fit X y kw s) as [[[[Xt yt] fp]|ex] s1]; [|reflexivity].
  rewrite Hp, Hres. reflexivity.
Qed.

Lemma C9_fit_resample_returns_none_witness :
  fst (_final_estimator sample_pipeline) = Ok (SEst regressor)
  /\ fit_resample rows3 rows3 [] sample_pipeline
     = (Ok VNone, snd (_fit rows3 rows3 [] sample_pipeline)).
Proof.
  split; [reflexivity|].
  rewrite (C9_fit_resample_returns_none rows3 rows3 [] sample_pipeline
             (SEst regressor) eq_refl eq_refl eq_refl).
  reflexivity.
Defined.



(** ** Dictionaries *)

Lemma dict_get_set_same {V} k (v : V) d : dict_get k (dict_set k v d) = Some v.
Proof.
  induction d as [|[k' v'] d IH]; simpl.
  - rewrite String.eqb_refl. reflexivity.
  - destruct (String.eqb k k') eqn:E; simpl; rewrite E; auto.
Qed.

Lemma dict_get_set_other {V} k k' (v : V) d :
  k <> k' -> dict_get k' (dict_set k v d) = dict_get k' d.
Proof.
  intros Hne. induction d as [|[k0 v0] d IH]; simpl.
  - destruct (String.eqb_spec k' k); [congruence|reflexivity].
  - destruct (String.eqb_spec k k0) as [->|Hk]; simpl.
    + destruct (String.eqb_spec k' k0); [congruence|reflexivity].
    + rewrite IH. reflexivity.
Qed.

Lemma dict_keys_set_present {V} k (v v0 : V) d :
  dict_get k d = Some v0 -> dict_keys (dict_set k v d) = dict_keys d.
Proof.
  unfold dict_keys.
  induction d as [|[k' v'] d IH]; simpl; [discriminate|].
  destruct (String.eqb k k'); simpl; [reflexivity|].
  intros H. rewrite IH; auto.
Qed.

Lemma dict_get_in_keys {V} k (d : dict V) :
  existsb (String.eqb k) (dict_keys d) = true ->
  exists v, dict_get k d = Some v.
Proof.
  induction d as [|[k' v'] d IH]; simpl; [discriminate|].
  destruct (String.eqb k k'); simpl; eauto.
Qed.

(** ** The separator *)

Lemma split_dunder_cons c c' rest :
  split_dunder (String c (String c' rest))
  = if is_underscore c && is_underscore c' then [EmptyString; rest]
    else match split_dunder (String c' rest) with
         | [a] => [String c a]
         | a :: tl => String c a :: tl
         | [] => []
         end.
Proof. reflexivity. Qed.

Lemma is_underscore_eq c : is_underscore c = true -> c = "_"%char.
Proof. apply Ascii.eqb_eq. Qed.

Lemma split_dunder_join :
  forall a step param,
    split_dunder a = [step; param] -> a = (step ++ "__" ++ param)%string.
Proof.
  induction a as [|c a IH]; intros step param H; [discriminate|].
  destruct a as [|c' rest]; [discriminate|].
  rewrite split_dunder_cons in H.
  destruct (is_underscore c && is_underscore c') eqn:E.
  - apply andb_true_iff in E as [E1 E2].
    apply is_underscore_eq in E1, E2. subst.
    injection H as <- <-. reflexivity.
  - destruct (split_dunder (String c' rest)) as [|a0 [|a1 [|a2 tl]]] eqn:Hs;
      try discriminate.
    injection H as <- <-.
    rewrite (IH a0 a1 eq_refl). reflexivity.
Qed.

Lemma split_dunder_inj a b step param :
  split_dunder a = [step; param] -> split_dunder b = [step; param] -> a = b.
Proof.
  intros Ha Hb. apply split_dunder_join in Ha, Hb. congruence.
Qed.

(** ** Routing the fit parameters *)

Lemma route_malformed :
  forall pre d pname pval post,
    contains_dunder pname = false ->
    Forall (routable_in d) pre ->
    route_fit_params (pre ++ (pname, pval) :: post) d = Raise ValueError.
Proof.
  induction pre as [|[pn pv] pre IH]; intros d pname pval post Hbad Hpre.
  - simpl. rewrite Hbad. reflexivity.
  - inversion Hpre as [|? ? Hr Hpre']; subst.
    unfold routable_in, routable in Hr. simpl fst in Hr.
    apply andb_true_iff in Hr as [Hc Hk].
    simpl. rewrite Hc. simpl.
    destruct (split_dunder pn) as [|st [|pa [|x tl]]]; try discriminate.
    destruct (dict_get_in_keys _ _ Hk) as [dd Hdd]. rewrite Hdd.
    apply IH; [assumption|].
    revert Hpre'. apply Forall_impl. intros p. unfold routable_in.
    rewrite (dict_keys_set_present st _ dd d Hdd). auto.
Qed.

Lemma route_ok_exists :
  forall kw d,
    Forall (routable_in d) kw ->
    exists d', route_fit_params kw d = Ok d'.
Proof.
  induction kw as [|[pn pv] kw IH]; intros d Hall.
  - exists d. reflexivity.
  - inversion Hall as [|? ? Hr Hall']; subst.
    unfold routable_in, routable in Hr. simpl fst in Hr.
    apply andb_true_iff in Hr as [Hc Hk].
    simpl. rewrite Hc. simpl.
    destruct (split_dunder pn) as [|st [|pa [|x tl]]]; try discriminate.
    destruct (dict_get_in_keys _ _ Hk) as [dd Hdd]. rewrite Hdd.
    apply IH.
    revert Hall'. apply Forall_impl. intros p. unfold routable_in.
    rewrite (dict_keys_set_present st _ dd d Hdd). auto.
Qed.

Lemma lookup2_set_same (d : dict kwargs) step param v (dd : kwargs) :
  lookup2 (dict_set step (dict_set param v dd) d) step param = Some v.
Proof.
  unfold lookup2. rewrite dict_get_set_same. apply dict_get_set_same.
Qed.

Lemma lookup2_set_other (d : dict kwargs) step param step' param' v
    (dd : kwargs) :
  dict_get step d = Some dd ->
  (step, param) <> (step', param') ->
  lookup2 (dict_set step (dict_set param v dd) d) step' param'
  = lookup2 d step' param'.
Proof.
  intros Hdd Hne. unfold lookup2.
  destruct (String.eqb_spec step step') as [E|Hs].
  - subst step'. rewrite dict_get_set_same, Hdd.
    apply dict_get_set_other. congruence.
  - rewrite dict_get_set_other by assumption. reflexivity.
Qed.

Lemma route_keeps_keys :
  forall kw d d',
    route_fit_params kw d = Ok d' -> dict_keys d' = dict_keys d.
Proof.
  induction kw as [|[pn pv] kw IH]; intros d d' H.
  - injection H as <-. reflexivity.
  - simpl in H. destruct (negb (contains_dunder pn)); [discriminate|].
    destruct (split_dunder pn) as [|st [|pa [|x tl]]]; try discriminate.
    destruct (dict_get st d) as [dd|] eqn:Hdd; [|discriminate].
    rewrite (IH _ _ H). apply (dict_keys_set_present st _ dd d Hdd).
Qed.

Lemma route_untouched :
  forall kw d d' step param,
    route_fit_params kw d = Ok d' ->
    (forall p, In p kw -> split_dunder (fst p) <> [step; param]) ->
    lookup2 d' step param = lookup2 d step param.
Proof.
  induction kw as [|[pn pv] kw IH]; intros d d' step param H Hno.
  - injection H as <-. reflexivity.
  - simpl in H. destruct (negb (contains_dunder pn)); [discriminate|].
    destruct (split_dunder pn) as [|st [|pa [|x tl]]] eqn:Hsp; try discriminate.
    destruct (dict_get st d) as [dd|] eqn:Hdd; [|discriminate].
    rewrite (IH _ _ step param H).
    + apply lookup2_set_other; [assumption|].
      intros E. injection E as -> ->.
      apply (Hno (pn, pv)); [left; reflexivity|exact Hsp].
    + intros p Hp. apply Hno. right. exact Hp.
Qed.

Lemma route_stores :
  forall kw d d',
    route_fit_params kw d = Ok d' ->
    NoDup (map fst kw) ->
    forall pname pval step param,
      In (pname, pval) kw ->
      split_dunder pname = [step; param] ->
      lookup2 d' step param = Some pval.
Proof.
  induction kw as [|[pn pv] kw IH]; intros d d' H Hnd pname pval step param Hin Hsp.
  - destruct Hin.
  - inversion Hnd as [|? ? Hnotin Hnd']; subst.
    simpl in H. destruct (negb (contains_dunder pn)); [discriminate|].
    destruct (split_dunder pn) as [|st [|pa [|x tl]]] eqn:Hsp0; try discriminate.
    destruct (dict_get st d) as [dd|] eqn:Hdd; [|discriminate].
    destruct Hin as [Heq|Hin].
    + injection Heq as -> ->.
      rewrite Hsp0 in Hsp. injection Hsp as -> ->.
      rewrite (route_untouched _ _ _ step param H).
      * apply lookup2_set_same.
      * intros [pn' pv'] Hin' Hsp'. simpl in Hsp'.
        apply Hnotin. rewrite (split_dunder_inj _ _ _ _ Hsp0 Hsp').
        apply (in_map fst _ _ Hin').
    + apply (IH _ _ H Hnd' pname pval step param Hin Hsp).
Qed.

(** ** Fit-style calls with a malformed parameter *)

Lemma fit_route_raises X y kw s ex :
  validate_steps_of (steps s) = Ok tt ->
  route_fit_params kw (init_fit_params_steps (steps s)) = Raise ex ->
  _fit X y kw s = (Raise ex, s).
Proof.
  intros Hv Hr. unfold _fit, _validate_steps.
  cbv beta iota delta [bind get_self lift].
  rewrite set_steps_same. cbv beta iota. rewrite Hv, Hr. reflexivity.
Qed.

Lemma validated_last s :
  validate_steps_of (steps s) = Ok tt ->
  exists before name t, steps s = before ++ [(name, t)].
Proof.
  intros Hv. apply validate_steps_of_ok in Hv as (Hne & _).
  destruct (rev (steps s)) as [|[name t] r] eqn:Hrev.
  - destruct (steps s); [congruence|].
    simpl in Hrev. apply app_eq_nil in Hrev as [_ Hrev]. discriminate.
  - exists (rev r), name, t. apply rev_cons_split. exact Hrev.
Qed.

Lemma fit_style_malformed X y pre pname pval post s :
  validate_steps_of (steps s) = Ok tt ->
  contains_dunder pname = false ->
  Forall (routable_in (init_fit_params_steps (steps s))) pre ->
  fit X y (pre ++ (pname, pval) :: post) s = (Raise ValueError, s)
  /\ fit_transform X y (pre ++ (pname, pval) :: post) s = (Raise ValueError, s)
  /\ fit_resample X y (pre ++ (pname, pval) :: post) s = (Raise ValueError, s)
  /\ (exposed A_fit_predict s = true ->
      fit_predict X y (pre ++ (pname, pval) :: post) s = (Raise ValueError, s)).
Proof.
  intros Hv Hbad Hpre.
  pose proof (route_malformed pre _ pname pval post Hbad Hpre) as Hr.
  pose proof (fit_route_raises X y _ s _ Hv Hr) as Hfit.
  destruct (validated_last s Hv) as (before & name & t & Hs).
  pose proof (final_estimator_last before (name, t) s Hs) as Hfe.
  repeat split.
  - unfold fit. cbv beta iota delta [bind]. rewrite Hfit. reflexivity.
  - unfold fit_transform. cbv beta iota delta [bind]. rewrite Hfe, Hfit.
    reflexivity.
  - unfold fit_resample. cbv beta iota delta [bind]. rewrite Hfe, Hfit.
    reflexivity.
  - intros Hex. unfold fit_predict. cbv beta iota delta [bind].
    revert Hex. unfold exposed. simpl getattr_public.
    rewrite (if_delegate_run A_fit_predict s before name t Hs).
    destruct (hasattr t A_fit_predict); [|discriminate].
    intros _. rewrite Hfit. reflexivity.
Qed.

Lemma fit_final_params X y kw s Xt yt fp s' fps before name t :
  _fit X y kw s = (Ok (Xt, yt, fp), s') ->
  steps s = before ++ [(name, t)] ->
  route_fit_params kw (init_fit_params_steps (steps s)) = Ok fps ->
  if is_skip t then fp = [] else dict_get name fps = Some fp.
Proof.
  intros Hfit Hs Hroute. rewrite fit_refines in Hfit.
  revert Hfit. unfold _fit_spec, _validate_steps.
  cbv beta iota delta [bind get_self lift].
  destruct (validate_steps_of (steps s)) as [[]|ex]; [|discriminate].
  rewrite Hroute, Hs, rev_app_distr.
  change (rev [(name, t)] ++ rev before) with ((name, t) :: rev before).
  cbv beta iota.
  destruct (thread_steps _ _ _ _ _ _ _ s) as [[[X' y']|ex] s1]; [|discriminate].
  unfold snd, fst, ret.
  destruct (is_skip t).
  - intros E. injection E as _ _ <- _. reflexivity.
  - unfold getitem. destruct (dict_get name fps) as [d|]; [|discriminate].
    unfold ret. intros E. injection E as _ _ <- _. reflexivity.
Qed.

(** C7 (as amended): on a pipeline whose steps pass validation, a fit-style
    call ([fit], [fit_transform], [fit_resample], and [fit_predict] where it
    can be read) with a keyword argument whose name lacks ['__'] raises
    [ValueError] and leaves the pipeline untouched, no step fitted, provided
    every argument before it names a step that is not [None]. When
    all names are of that kind (and distinct), the dictionary built from them
    holds every value under its step and parameter name, and the final step
    is given the entry of its own name. *)
Theorem C7_fit_params_routing :
  (forall X y pre pname pval post s,
     validate_steps_of (steps s) = Ok tt ->
     contains_dunder pname = false ->
     Forall (routable_in (init_fit_params_steps (steps s))) pre ->
     fit X y (pre ++ (pname, pval) :: post) s = (Raise ValueError, s)
     /\ fit_transform X y (pre ++ (pname, pval) :: post) s
        = (Raise ValueError, s)
     /\ fit_resample X y (pre ++ (pname, pval) :: post) s
        = (Raise ValueError, s)
     /\ (exposed A_fit_predict s = true ->
         fit_predict X y (pre ++ (pname, pval) :: post) s
         = (Raise ValueError, s)))
  /\ (forall kw s,
        Forall (routable_in (init_fit_params_steps (steps s))) kw ->
        NoDup (map fst kw) ->
        exists fps,
          route_fit_params kw (init_fit_params_steps (steps s)) = Ok fps
          /\ dict_keys fps = dict_keys (init_fit_params_steps (steps s))
          /\ forall pname pval step param,
               In (pname, pval) kw ->
               split_dunder pname = [step; param] ->
               lookup2 fps step param = Some pval)
  /\ (forall X y kw s Xt yt fp s' fps before name t,
        _fit X y kw s = (Ok (Xt, yt, fp), s') ->
        steps s = before ++ [(name, t)] ->
        route_fit_params kw (init_fit_params_steps (steps s)) = Ok fps ->
        if is_skip t then fp = [] else dict_get name fps = Some fp).
Proof.
  split; [|split].
  - intros. apply fit_style_malformed; assumption.
  - intros kw s Hall Hnd.
    destruct (route_ok_exists kw _ Hall) as [fps Hfps].
    exists fps. split; [exact Hfps|]. split.
    + apply (route_keeps_keys kw _ _ Hfps).
    + intros pname pval step param Hin Hsp.
      apply (route_stores kw _ _ Hfps Hnd pname pval step param Hin Hsp).
  - intros. eapply fit_final_params; eassumption.
Qed.

Lemma C7_fit_params_routing_witness :
  validate_steps_of (steps sample_pipeline) = Ok tt
  /\ contains_dunder "bad" = false
  /\ Forall (routable_in (init_fit_params_steps (steps sample_pipeline)))
       [("sc__a", VInt 1)]
  /\ fit rows3 rows3 ([("sc__a", VInt 1)] ++ ("bad", VInt 2) :: [])
       sample_pipeline
     = (Raise ValueError, sample_pipeline).
Proof.
  split; [reflexivity|]. split; [reflexivity|].
  split; [constructor; [reflexivity|constructor]|].
  apply (proj1 C7_fit_params_routing rows3 rows3 [("sc__a", VInt 1)] "bad"
           (VInt 2) [] sample_pipeline).
  - reflexivity.
  - reflexivity.
  - constructor; [reflexivity|constructor].
Defined.

(** C7, counterexample: with valid steps, a malformed name that comes after
    a name whose prefix is no step raises [KeyError]; and with an invalid
    step the call raises [TypeError], whatever the names. *)
Lemma C7_counterexample_other_errors :
  validate_steps_of (steps sample_pipeline) = Ok tt
  /\ contains_dunder "bad" = false
  /\ fit rows3 rows3 [("zz__a", VInt 1); ("bad", VInt 2)] sample_pipeline
     = (Raise KeyError, sample_pipeline)
  /\ fit rows3 rows3 [("bad", VInt 2)] fit_only_pipeline
     = (Raise TypeError, fit_only_pipeline).
Proof. repeat split. Qed.

(** ** Order and effect of the steps at fit and prediction time *)



Lemma fit_keeps_names X y kw s :
  map fst (steps (snd (_fit X y kw s))) = map fst (steps s).
Proof.
  rewrite fit_refines. unfold _fit_spec, _validate_steps.
  cbv beta iota delta [bind get_self lift].
  destruct (validate_steps_of (steps s)) as [[]|ex]; [|reflexivity].
  destruct (route_fit_params _ _) as [fps|ex]; [|reflexivity].
  destruct (rev (steps s)) as [|final before] eqn:Hrev; [reflexivity|].
  apply rev_cons_split in Hrev.
  pose proof (thread_steps_shape (mem_location (memory s)) fps final
                (rev before) [] X y s Hrev) as (l' & Hl' & Hn).
  destruct (thread_steps _ _ _ _ _ _ _ s) as [[[X' y']|ex] s1]; simpl in Hl'.
  - assert (Hs1 : map fst (steps s1) = map fst (steps s)).
    { rewrite Hl', Hrev, !map_app, Hn. reflexivity. }
    destruct (is_skip (snd final)); [exact Hs1|].
    unfold getitem. destruct (dict_get (fst final) fps); exact Hs1.
  - simpl. rewrite Hl', Hrev, !map_app, Hn. reflexivity.
Qed.

Lemma fit_step_keeps_labels mem kw name e X y s :
  est_hasattr e A_fit_resample = true
  \/ match fst (fit_step mem kw name e X y s) with
     | Ok (_, y', _) => y' = y
     | Raise _ => True
     end.
Proof.
  destruct (est_hasattr e A_fit_resample) eqn:Hres; [left; reflexivity|right].
  unfold fit_step. rewrite est_hasattr_cloned, Hres.
  cbv beta iota delta [bind ret].
  destruct (_fit_transform_one _ _ _ _ _ s) as [[[X' f]|ex] s1]; simpl; auto.
Qed.

(** C3: [_fit] applies the intermediate steps in list order, skipping
    [None] and ['passthrough']: it is the computation [_fit_spec], in which
    a step without [fit_resample] is fitted and transformed and changes [X]
    only, a step with [fit_resample] is resampled and changes [X] and [y],
    and the fitted step is put where the original was. The names of the
    steps stay where they are, and fitting a step without [fit_resample]
    returns the labels it was given. *)
Theorem C3_fit_threads_steps_in_order :
  forall X y kw s,
    _fit X y kw s = _fit_spec X y kw s
    /\ map fst (steps (snd (_fit X y kw s))) = map fst (steps s)
    /\ (forall mem kw' name e X0 y0 s0,
          est_hasattr e A_fit_resample = true
          \/ match fst (fit_step mem kw' name e X0 y0 s0) with
             | Ok (_, y', _) => y' = y0
             | Raise _ => True
             end).
Proof.
  intros. split; [apply fit_refines|]. split; [apply fit_keeps_names|].
  intros. apply fit_step_keeps_labels.
Qed.

(** C1 (as amended): an intermediate step that exposes [fit_resample] is
    not rejected for also exposing [transform] or [fit_transform]: unless it
    is itself a Pipeline it passes the check of [_validate_steps], and the
    loop of [_fit] treats it as a resampler, calling [fit_resample] on it
    and putting the fitted step in its place. *)
Theorem C1_resampler_with_transform_accepted :
  forall mem fps before name e rest X y fitted s,
    est_hasattr e A_fit_resample = true ->
    is_pipeline e = false ->
    steps s = before ++ (name, SEst e) :: rest ->
    check_transformer (SEst e) = Ok tt
    /\ fit_body mem fps (List.length before, name, SEst e) (X, y, fitted) s
       = bind (getitem fps name)
           (fun kw =>
              bind (_fit_resample_one name (if mem then clone e else e) X y kw)
                (fun '(X', y', f) =>
                   bind (set_steps (before ++ (name, SEst f) :: rest))
                     (fun _ => ret (X', y', Some f)))) s.
Proof.
  intros mem fps before name e rest X y fitted s Hres Hp Hs.
  assert (Hbad : bad_intermediate (SEst e) = false).
  { unfold bad_intermediate, fit_like, transform_like. simpl.
    change (is_some (m_fit_resample e)) with (est_hasattr e A_fit_resample).
    rewrite Hres, Hp, !orb_true_r. reflexivity. }
  split.
  - rewrite check_transformer_spec, Hbad. reflexivity.
  - rewrite (fit_body_valid mem fps before name e rest X y fitted s Hs Hbad).
    unfold fit_step. rewrite est_hasattr_cloned, Hres. reflexivity.
Qed.

Lemma C1_resampler_with_transform_accepted_witness :
  est_hasattr remover A_fit_resample = true
  /\ est_hasattr remover A_transform = true
  /\ check_transformer (SEst remover) = Ok tt.
Proof.
  split; [reflexivity|]. split; [reflexivity|].
  apply (C1_resampler_with_transform_accepted false [] [("sc", SEst scaler)] "rm" remover
           [("reg", SEst regressor)] VNone VNone None sample_pipeline);
    reflexivity.
Defined.

(** C1, counterexample: the intermediate step has both [transform] and
    [fit_resample]; validation passes and [fit] runs to the end. *)
Lemma C1_counterexample_both_capabilities :
  est_hasattr remover A_transform = true
  /\ est_hasattr remover A_fit_resample = true
  /\ _validate_steps both_pipeline = (Ok tt, both_pipeline)
  /\ fst (fit rows3 rows3 [] both_pipeline) = Ok tt
  /\ calls (snd (fit rows3 rows3 [] both_pipeline))
     = [Call "rm" A_fit_resample; Call "reg" A_fit].
Proof. repeat split. Qed.

Lemma bookkeeping_all_none recs old :
  Forall (fun r => is_none (fst r) = true) recs -> bookkeeping recs old = old.
Proof.
  intros H. unfold bookkeeping.
  replace (filter (fun r : value * value => negb (is_none (fst r))) recs)
    with (@nil (value * value)); [reflexivity|].
  induction H as [|r recs Hr _ IH]; [reflexivity|].
  simpl. rewrite Hr. simpl. exact IH.
Qed.

Lemma bookkeeping_last recs1 k o recs2 old :
  is_none k = false ->
  Forall (fun r => is_none (fst r) = true) recs2 ->
  bookkeeping (recs1 ++ (k, o) :: recs2) old = (Some k, Some o).
Proof.
  intros Hk H2. unfold bookkeeping.
  rewrite filter_app. simpl. rewrite Hk. simpl.
  replace (filter (fun r : value * value => negb (is_none (fst r))) recs2)
    with (@nil (value * value)).
  - rewrite rev_app_distr. reflexivity.
  - induction H2 as [|r recs Hr _ IH]; [reflexivity|].
    simpl. rewrite Hr. simpl. exact IH.
Qed.

(** C4 (as amended): [predict] and [predict_proba] refit nothing: the
    steps are left as they are and the only methods called are [transform]
    and the predicting method. When the transforms of the intermediate
    steps succeed, each step that is not [None]/['passthrough'] has its
    [transform] called once, in order, then the final estimator predicts on
    the features they produced; what a resample-capable step returned is
    recorded if its kept-row indices are not [None]. *)
Theorem C4_predict_no_refit :
  forall X kw s,
    (steps (snd (predict X kw s)) = steps s
     /\ exists evs, calls (snd (predict X kw s)) = calls s ++ evs
                    /\ Forall (fun ev => is_predict_time_attr (event_attr ev) = true) evs)
    /\ (steps (snd (predict_proba X kw s)) = steps s
        /\ exists evs, calls (snd (predict_proba X kw s)) = calls s ++ evs
                       /\ Forall (fun ev => is_predict_time_attr (event_attr ev) = true) evs)
    /\ (forall before name e f Xt recs,
          steps s = before ++ [(name, SEst e)] ->
          m_predict e = Some f ->
          transform_outputs before X = Ok (Xt, recs) ->
          predict X kw s
          = (f (est_state e) Xt kw,
             after_predict_loop s recs
               (transform_calls before ++ [Call name A_predict])))
    /\ (forall before name e f Xt recs,
          steps s = before ++ [(name, SEst e)] ->
          m_predict_proba e = Some f ->
          transform_outputs before X = Ok (Xt, recs) ->
          predict_proba X kw s
          = (f (est_state e) Xt kw,
             after_predict_loop s recs
               (transform_calls before ++ [Call name A_predict_proba]))).
Proof.
  intros X kw s. split; [|split; [|split]].
  - destruct (touches_predict_like A_predict m_predict X kw eq_refl s)
      as (H1 & _ & H2). split; assumption.
  - destruct (touches_predict_like A_predict_proba m_predict_proba X kw eq_refl s)
      as (H1 & _ & H2). split; assumption.
  - intros before name e f Xt recs Hs Hf Hout.
    apply (predict_like_run A_predict m_predict X kw s before name e f Xt recs);
      auto. simpl. rewrite Hf. reflexivity.
  - intros before name e f Xt recs Hs Hf Hout.
    apply (predict_like_run A_predict_proba m_predict_proba X kw s before name e
             f Xt recs); auto. simpl. rewrite Hf. reflexivity.
Qed.

(** C5 (as amended): after a predict-style call whose transforms succeed,
    the bookkeeping fields are those returned by the last resample-capable
    step whose kept-row indices were not [None]; if every such step returned
    [None] for them, the fields keep the values they had before the call. *)
Theorem C5_bookkeeping_after_predict :
  forall X kw s before name e Xt recs,
    steps s = before ++ [(name, SEst e)] ->
    transform_outputs before X = Ok (Xt, recs) ->
    (est_hasattr e A_predict = true ->
     (to_keep_ind (snd (predict X kw s)), outliers (snd (predict X kw s)))
     = bookkeeping recs (to_keep_ind s, outliers s))
    /\ (est_hasattr e A_predict_proba = true ->
        (to_keep_ind (snd (predict_proba X kw s)),
         outliers (snd (predict_proba X kw s)))
        = bookkeeping recs (to_keep_ind s, outliers s))
    /\ (Forall (fun r => is_none (fst r) = true) recs ->
        bookkeeping recs (to_keep_ind s, outliers s)
        = (to_keep_ind s, outliers s))
    /\ (forall recs1 k o recs2,
          recs = recs1 ++ (k, o) :: recs2 ->
          is_none k = false ->
          Forall (fun r => is_none (fst r) = true) recs2 ->
          bookkeeping recs (to_keep_ind s, outliers s) = (Some k, Some o)).
Proof.
  intros X kw s before name e Xt recs Hs Hout.
  split; [|split; [|split]].
  - intros Ha. simpl in Ha. destruct (m_predict e) as [f|] eqn:Hf; [|discriminate].
    unfold predict.
    rewrite (predict_like_run A_predict m_predict X kw s before name e f Xt recs);
      auto.
    + unfold after_predict_loop. simpl.
      destruct (bookkeeping recs _); reflexivity.
    + simpl. rewrite Hf. reflexivity.
  - intros Ha. simpl in Ha.
    destruct (m_predict_proba e) as [f|] eqn:Hf; [|discriminate].
    unfold predict_proba.
    rewrite (predict_like_run A_predict_proba m_predict_proba X kw s before
               name e f Xt recs); auto.
    + unfold after_predict_loop. simpl.
      destruct (bookkeeping recs _); reflexivity.
    + simpl. rewrite Hf. reflexivity.
  - apply bookkeeping_all_none.
  - intros recs1 k o recs2 -> Hk H2. apply bookkeeping_last; assumption.
Qed.

(** C4, counterexample: the resample-capable step returns [None] for the
    kept rows and a list of excluded rows; the prediction succeeds and
    nothing is recorded. *)
Lemma C4_counterexample_nothing_recorded :
  hasattr (SEst remover) A_fit_resample = true
  /\ transform_outputs [("rm", SEst remover)] no_rows
     = Ok (no_rows, [(VNone, VList [VInt 7])])
  /\ fst (predict no_rows [] both_pipeline) = Ok (VTuple [VNone; no_rows])
  /\ outliers (snd (predict no_rows [] both_pipeline)) = None
  /\ to_keep_ind (snd (predict no_rows [] both_pipeline)) = None.
Proof. repeat split. Qed.

(** C5, counterexample: a second call, in which the resample-capable step
    returns [None] for the kept rows, leaves the fields of the first call in
    place. *)
Lemma C5_counterexample_stale_fields :
  to_keep_ind (snd (predict rows3 [] both_pipeline)) = Some (VList [VInt 0])
  /\ outliers (snd (predict rows3 [] both_pipeline)) = Some (VList [VInt 1])
  /\ transform_outputs [("rm", SEst remover)] no_rows
     = Ok (no_rows, [(VNone, VList [VInt 7])])
  /\ to_keep_ind (snd (predict no_rows [] (snd (predict rows3 [] both_pipeline))))
     = Some (VList [VInt 0])
  /\ outliers (snd (predict no_rows [] (snd (predict rows3 [] both_pipeline))))
     = Some (VList [VInt 1]).
Proof. repeat split. Qed.

Lemma C4_predict_no_refit_witness :
  steps both_pipeline = [("rm", SEst remover)] ++ [("reg", SEst regressor)]
  /\ transform_outputs [("rm", SEst remover)] rows3
     = Ok (wrap 20 rows3, [(VList [VInt 0], VList [VInt 1])])
  /\ fst (predict rows3 [] both_pipeline) = Ok (VTuple [VNone; wrap 20 rows3]).
Proof.
  split; [reflexivity|]. split; [reflexivity|].
  rewrite (proj1 (proj2 (proj2 (C4_predict_no_refit rows3 [] both_pipeline)))
             [("rm", SEst remover)] "reg" regressor
             (fun st X _ => Ok (VTuple [st; X]))
             (wrap 20 rows3) [(VList [VInt 0], VList [VInt 1])]
             eq_refl eq_refl eq_refl).
  reflexivity.
Defined.

Lemma C5_bookkeeping_after_predict_witness :
  steps both_pipeline = [("rm", SEst remover)] ++ [("reg", SEst regressor)]
  /\ transform_outputs [("rm", SEst remover)] rows3
     = Ok (wrap 20 rows3, [(VList [VInt 0], VList [VInt 1])])
  /\ est_hasattr regressor A_predict = true
  /\ (to_keep_ind (snd (predict rows3 [] both_pipeline)),
      outliers (snd (predict rows3 [] both_pipeline)))
     = bookkeeping [(VList [VInt 0], VList [VInt 1])] (None, None).
Proof.
  split; [reflexivity|]. split; [reflexivity|]. split; [reflexivity|].
  apply (proj1 (C5_bookkeeping_after_predict rows3 [] both_pipeline [("rm", SEst remover)] "reg"
                  regressor (wrap 20 rows3) [(VList [VInt 0], VList [VInt 1])]
                  eq_refl eq_refl)).
  reflexivity.
Defined.

(** * Further properties of the code *)

(** ** What [_iter] yields *)

Lemma enumerate_from_In {A} (l : list A) :
  forall k i x,
    In (i, x) (enumerate_from k l) <-> k <= i /\ nth_error l (i - k) = Some x.
Proof.
  induction l as [|a l IH]; intros k i x; simpl.
  - split; [tauto|]. intros [_ H]. destruct (i - k); discriminate.
  - rewrite IH. split.
    + intros [E|[Hle Hn]].
      * injection E as <- <-. split; [lia|].
        rewrite Nat.sub_diag. reflexivity.
      * split; [lia|].
        replace (i - k) with (S (i - S k)) by lia. exact Hn.
    + intros [Hle Hn]. destruct (Nat.eq_dec k i) as [<-|Hne].
      * left. rewrite Nat.sub_diag in Hn. simpl in Hn. congruence.
      * right. split; [lia|].
        replace (i - k) with (S (i - S k)) in Hn by lia. exact Hn.
Qed.

Lemma super_iter_In (l : list (string * step)) (with_final filter_passthrough : bool)
    idx name t :
  l <> [] ->
  In (idx, name, t) (super_iter l with_final filter_passthrough)
  <-> nth_error l idx = Some (name, t)
      /\ (with_final = false -> S idx < List.length l)
      /\ (filter_passthrough = true -> is_skip t = false).
Proof.
  intros Hne. unfold super_iter. rewrite in_flat_map.
  assert (Hlen : 0 < List.length l) by (destruct l; [congruence|simpl; lia]).
  split.
  - intros [[i [n tr]] [Hin Hy]].
    apply enumerate_from_In in Hin as [_ Hn]. rewrite Nat.sub_0_r in Hn.
    rewrite nth_error_firstn in Hn.
    destruct (Nat.ltb_spec i (if with_final then List.length l
                              else List.length l - 1)) as [Hlt|Hge];
      [|discriminate].
    assert (E : (idx, name, t) = (i, n, tr)).
    { destruct filter_passthrough; simpl in Hy.
      - destruct (is_skip tr); simpl in Hy; [contradiction|].
        destruct Hy as [Hy|[]]. congruence.
      - destruct Hy as [Hy|[]]. congruence. }
    injection E as -> -> ->. split; [exact Hn|]. split.
    + intros ->. lia.
    + intros ->. simpl in Hy. destruct (is_skip tr); [contradiction|reflexivity].
  - intros (Hn & Hwf & Hfp).
    exists (idx, (name, t)). split.
    + apply enumerate_from_In. split; [lia|]. rewrite Nat.sub_0_r.
      rewrite nth_error_firstn.
      assert (idx < List.length l) by (apply nth_error_Some; congruence).
      destruct (Nat.ltb_spec idx (if with_final then List.length l
                                  else List.length l - 1)) as [Hlt|Hge];
        [exact Hn|].
      destruct with_final; [lia|]. specialize (Hwf eq_refl). lia.
    + destruct filter_passthrough; simpl.
      * rewrite (Hfp eq_refl). left. reflexivity.
      * left. reflexivity.
Qed.

Lemma enumerate_from_sorted {A} (l : list A) :
  forall k, StronglySorted lt (map fst (enumerate_from k l))
            /\ Forall (fun i => k <= i) (map fst (enumerate_from k l)).
Proof.
  induction l as [|a l IH]; intros k; simpl.
  - split; constructor.
  - destruct (IH (S k)) as [Hs Hf]. split.
    + constructor; [exact Hs|].
      revert Hf. apply Forall_impl. intros i. lia.
    + constructor; [lia|].
      revert Hf. apply Forall_impl. intros i. lia.
Qed.

Lemma super_iter_sorted_from (fp : bool) (L : list (nat * (string * step))) :
  StronglySorted lt (map fst L) ->
  StronglySorted lt
    (map item_index
       (flat_map
          (fun '(idx, (name, trans)) =>
             if negb fp then [(idx, name, trans)]
             else if negb (is_skip trans) then [(idx, name, trans)]
             else [])
          L))
  /\ forall b, Forall (fun i => b < i) (map fst L) ->
               Forall (fun i => b < i)
                 (map item_index
                    (flat_map
                       (fun '(idx, (name, trans)) =>
                          if negb fp then [(idx, name, trans)]
                          else if negb (is_skip trans) then [(idx, name, trans)]
                          else [])
                       L)).
Proof.
  induction L as [|[i [n t]] L IH]; intros Hs; simpl.
  - split; [constructor|]. intros. constructor.
  - inversion Hs as [|? ? Hs' Hall]; subst.
    destruct (IH Hs') as [IH1 IH2].
    destruct (negb fp); [|destruct (negb (is_skip t))]; simpl.
    + split.
      * constructor; [exact IH1|]. apply IH2. exact Hall.
      * intros b Hb. inversion Hb; subst. constructor; [assumption|].
        apply IH2. assumption.
    + split.
      * constructor; [exact IH1|]. apply IH2. exact Hall.
      * intros b Hb. inversion Hb; subst. constructor; [assumption|].
        apply IH2. assumption.
    + split; [exact IH1|].
      intros b Hb. inversion Hb; subst. apply IH2. assumption.
Qed.

Lemma sorted_map_filter {A} (g : A -> nat) (p : A -> bool) (l : list A) :
  StronglySorted lt (map g l) -> StronglySorted lt (map g (filter p l)).
Proof.
  induction l as [|a l IH]; simpl; intros Hs; [constructor|].
  inversion Hs as [|? ? Hs' Hall]; subst.
  destruct (p a); simpl; [|auto].
  constructor; [auto|].
  rewrite Forall_map in *. rewrite Forall_forall in *.
  intros x Hx. apply Hall. apply filter_In in Hx. tauto.
Qed.

(** X1: on a non-empty list of steps, [_iter] yields exactly the triples
    [(idx, name, step)] where the step of that name stands at position [idx],
    short of the last position unless [with_final], not ['passthrough'] or
    [None] when [filter_passthrough], without [fit_resample] when
    [filter_resample]; and it yields them by increasing position. *)
Theorem X1_iter_yields_positions :
  forall (l : list (string * step)) (with_final filter_passthrough filter_resample : bool),
    l <> [] ->
    (forall idx name t,
       In (idx, name, t) (_iter l with_final filter_passthrough filter_resample)
       <-> nth_error l idx = Some (name, t)
           /\ (with_final = false -> S idx < List.length l)
           /\ (filter_passthrough = true -> is_skip t = false)
           /\ (filter_resample = true -> hasattr t A_fit_resample = false))
    /\ StronglySorted lt
         (map item_index (_iter l with_final filter_passthrough filter_resample)).
Proof.
  intros l wf fp fr Hne. split.
  - intros idx name t. unfold _iter. destruct fr.
    + rewrite filter_In, (super_iter_In l wf fp idx name t Hne). simpl snd.
      rewrite negb_true_iff. split.
      * intros [(H1 & H2 & H3) H4]. auto.
      * intros (H1 & H2 & H3 & H4). auto.
    + rewrite (super_iter_In l wf fp idx name t Hne). split.
      * intros (H1 & H2 & H3). repeat split; auto. discriminate.
      * intros (H1 & H2 & H3 & _). auto.
  - assert (Hs : StronglySorted lt (map item_index (super_iter l wf fp))).
    { unfold super_iter.
      apply (proj1 (super_iter_sorted_from fp _
                      (proj1 (enumerate_from_sorted _ 0)))). }
    unfold _iter. destruct fr; [apply sorted_map_filter|]; exact Hs.
Qed.

Lemma X1_iter_yields_positions_witness :
  steps sample_pipeline <> []
  /\ StronglySorted lt
       (map item_index (_iter (steps sample_pipeline) false true true)).
Proof.
  split; [discriminate|].
  apply (X1_iter_yields_positions (steps sample_pipeline) false true true).
  discriminate.
Defined.

(** ** The dictionary of fit parameters *)

Lemma dict_get_set {V} k k' (v : V) d :
  dict_get k' (dict_set k v d)
  = if String.eqb k' k then Some v else dict_get k' d.
Proof.
  destruct (String.eqb_spec k' k) as [->|Hne].
  - apply dict_get_set_same.
  - apply dict_get_set_other. congruence.
Qed.

Lemma init_fold_get name (l : list (string * step)) :
  forall d : dict kwargs,
    dict_get name
      (fold_left
         (fun d '(name, t) =>
            match t with
            | SNone => d
            | _ => dict_set name [] d
            end) l d)
    = if existsb (names_step name) l then Some [] else dict_get name d.
Proof.
  induction l as [|[n t] l IH]; intros d; simpl; [reflexivity|].
  unfold names_step at 1. simpl fst. simpl snd.
  destruct t as [| |e]; simpl is_not_none; rewrite IH.
  - rewrite andb_false_r. reflexivity.
  - rewrite andb_true_r, dict_get_set.
    destruct (existsb (names_step name) l); [rewrite orb_true_r|rewrite orb_false_r];
      reflexivity.
  - rewrite andb_true_r, dict_get_set.
    destruct (existsb (names_step name) l); [rewrite orb_true_r|rewrite orb_false_r];
      reflexivity.
Qed.

Lemma init_fit_params_steps_get (l : list (string * step)) (name : string) :
  dict_get name (init_fit_params_steps l)
  = if existsb (names_step name) l then Some [] else None.
Proof. unfold init_fit_params_steps. apply init_fold_get. Qed.

(** X2: the dictionary [fit_params_steps] that [_fit] starts from has an
    entry, the empty dictionary, for exactly the names of the steps that are
    not [None] (a ['passthrough'] step has one), also when a name occurs
    twice. *)
Theorem X2_fit_params_steps_initial :
  forall (l : list (string * step)) (name : string),
    dict_get name (init_fit_params_steps l)
    = if existsb (names_step name) l then Some [] else None.
Proof. intros l name. apply init_fit_params_steps_get. Qed.

(** ** Cutting a parameter name *)

Lemma split_dunder_shape :
  forall s,
    (contains_dunder s = false /\ split_dunder s = [s])
    \/ (contains_dunder s = true /\ exists a b, split_dunder s = [a; b]).
Proof.
  induction s as [|c s IH]; [left; split; reflexivity|].
  destruct s as [|c' rest]; [left; split; reflexivity|].
  rewrite split_dunder_cons.
  change (contains_dunder (String c (String c' rest)))
    with ((is_underscore c && is_underscore c')
          || contains_dunder (String c' rest)).
  destruct (is_underscore c && is_underscore c').
  - right. split; [reflexivity|]. eauto.
  - rewrite !orb_false_l. destruct IH as [[Hc Hs]|[Hc (a & b & Hs)]]; rewrite Hs, Hc.
    + left. split; reflexivity.
    + right. split; [reflexivity|]. eauto.
Qed.

Lemma contains_dunder_cons c c' rest :
  contains_dunder (String c (String c' rest))
  = (is_underscore c && is_underscore c') || contains_dunder (String c' rest).
Proof. reflexivity. Qed.

Lemma split_dunder_round_trip :
  forall step param,
    contains_dunder (step ++ "_")%string = false ->
    split_dunder (step ++ "__" ++ param)%string = [step; param]
    /\ contains_dunder (step ++ "__" ++ param)%string = true.
Proof.
  intro step; induction step as [|c step IH]; intros param H.
  - split; reflexivity.
  - destruct step as [|c' rest].
    + simpl in H. rewrite andb_true_r, orb_false_r in H.
      simpl. rewrite H. simpl. split; reflexivity.
    + cbn [append] in H |- *.
      rewrite contains_dunder_cons in H.
      apply orb_false_elim in H as [Hcc Hrest].
      destruct (IH param Hrest) as [IHs IHc].
      cbn [append] in IHs, IHc.
      rewrite split_dunder_cons, contains_dunder_cons, Hcc, IHs, IHc.
      split; reflexivity.
Qed.

(** X3: a fit parameter named [step__param], where [step] has no ['__']
    and does not end in ['_'], is cut at the first separator: it is stored
    in the entry of [step] under [param], even when [param] contains ['__']
    itself, and the loop goes on with the remaining parameters. *)
Theorem X3_named_parameter_is_stored :
  forall step param pval rest (d : dict kwargs) (kw : kwargs),
    contains_dunder (step ++ "_")%string = false ->
    dict_get step d = Some kw ->
    route_fit_params (((step ++ "__" ++ param)%string, pval) :: rest) d
    = route_fit_params rest (dict_set step (dict_set param pval kw) d).
Proof.
  intros step param pval rest d kw Hstep Hd.
  destruct (split_dunder_round_trip step param Hstep) as [Hs Hc].
  cbn [route_fit_params]. rewrite Hc. cbn [negb]. rewrite Hs, Hd. reflexivity.
Qed.

(** ** Errors of the routing loop *)

Lemma dict_get_none_keys {V} k (d : dict V) :
  dict_get k d = None <-> existsb (String.eqb k) (dict_keys d) = false.
Proof.
  induction d as [|[k' v] d IH]; simpl; [tauto|].
  destruct (String.eqb k k'); simpl; [split; discriminate|exact IH].
Qed.

Lemma route_errors :
  forall kw (d : dict kwargs),
    match route_fit_params kw d with
    | Ok d' => dict_keys d' = dict_keys d
    | Raise e =>
        (e = ValueError
         /\ exists p, In p kw /\ contains_dunder (fst p) = false)
        \/ (e = KeyError
            /\ exists p step param,
                 In p kw /\ split_dunder (fst p) = [step; param]
                 /\ dict_get step d = None)
    end.
Proof.
  induction kw as [|[pn pv] kw IH]; intros d; [reflexivity|].
  cbn [route_fit_params].
  destruct (split_dunder_shape pn) as [[Hc _]|[Hc (a & b & Hs)]]; rewrite Hc;
    cbn [negb].
  - left. split; [reflexivity|]. exists (pn, pv). simpl. auto.
  - rewrite Hs. destruct (dict_get a d) as [dd|] eqn:Hd.
    + specialize (IH (dict_set a (dict_set b pv dd) d)).
      pose proof (@dict_keys_set_present kwargs a (dict_set b pv dd) dd d Hd)
        as Hk.
      destruct (route_fit_params kw _) as [d'|e].
      * etransitivity; [exact IH|exact Hk].
      * destruct IH as [[-> (p & Hin & Hp)]|[-> (p & st & pa & Hin & Hsp & Hdg)]].
        -- left. split; [reflexivity|]. exists p. simpl. auto.
        -- right. split; [reflexivity|]. exists p, st, pa.
           split; [simpl; auto|]. split; [exact Hsp|].
           apply dict_get_none_keys. apply dict_get_none_keys in Hdg.
           rewrite <- Hk. exact Hdg.
    + right. split; [reflexivity|]. exists (pn, pv), a, b. simpl. auto.
Qed.

(** X4: when the steps pass validation and the loop over the fit parameters
    fails, [_fit] raises that error with the pipeline untouched, and the
    error is either [ValueError], for a parameter whose name has no ['__'],
    or [KeyError], for a parameter whose prefix is not the name of a step
    other than [None]; the loop raises nothing else. *)
Theorem X4_routing_errors :
  forall X y kw s e,
    validate_steps_of (steps s) = Ok tt ->
    route_fit_params kw (init_fit_params_steps (steps s)) = Raise e ->
    _fit X y kw s = (Raise e, s)
    /\ ((e = ValueError
         /\ exists p, In p kw /\ contains_dunder (fst p) = false)
        \/ (e = KeyError
            /\ exists p step param,
                 In p kw /\ split_dunder (fst p) = [step; param]
                 /\ existsb (names_step step) (steps s) = false)).
Proof.
  intros X y kw s e Hv Hr.
  pose proof (route_errors kw (init_fit_params_steps (steps s))) as H.
  rewrite Hr in H.
  split; [apply fit_route_raises; assumption|].
  destruct H as [H|[-> (p & st & pa & Hin & Hsp & Hdg)]]; [left; exact H|].
  right. split; [reflexivity|]. exists p, st, pa.
  split; [exact Hin|]. split; [exact Hsp|].
  rewrite init_fit_params_steps_get in Hdg.
  destruct (existsb (names_step st) (steps s)); [discriminate|reflexivity].
Qed.

Lemma X3_named_parameter_is_stored_witness :
  contains_dunder ("sc" ++ "_")%string = false
  /\ dict_get "sc" (init_fit_params_steps (steps sample_pipeline)) = Some []
  /\ route_fit_params [(("sc" ++ "__" ++ "a__b")%string, VInt 1)]
       (init_fit_params_steps (steps sample_pipeline))
     = Ok (dict_set "sc" (dict_set "a__b" (VInt 1) [])
             (init_fit_params_steps (steps sample_pipeline))).
Proof.
  split; [reflexivity|]. split; [reflexivity|].
  rewrite (X3_named_parameter_is_stored "sc" "a__b" (VInt 1) []
             (init_fit_params_steps (steps sample_pipeline)) []
             eq_refl eq_refl).
  reflexivity.
Defined.

Lemma X4_routing_errors_witness :
  validate_steps_of (steps sample_pipeline) = Ok tt
  /\ route_fit_params [("zz__a", VInt 1)]
       (init_fit_params_steps (steps sample_pipeline)) = Raise KeyError
  /\ _fit rows3 rows3 [("zz__a", VInt 1)] sample_pipeline
     = (Raise KeyError, sample_pipeline).
Proof.
  split; [reflexivity|]. split; [reflexivity|].
  apply (X4_routing_errors rows3 rows3 [("zz__a", VInt 1)] sample_pipeline
           KeyError eq_refl eq_refl).
Defined.

(** ** What a fit-style call leaves alone *)

Lemma keeps_fields_nothing P {A} (m : M A) :
  (forall s, snd (m s) = s) -> keeps_fields P m.
Proof.
  intros H s. rewrite H. repeat split. exists []. rewrite app_nil_r. auto.
Qed.

Lemma keeps_fields_touches P {A} (m : M A) :
  touches P m -> (forall s, to_keep_ind (snd (m s)) = to_keep_ind s
                            /\ outliers (snd (m s)) = outliers s) ->
  keeps_fields P m.
Proof.
  intros Ht Hf s. destruct (Ht s) as (_ & Hm & Hev). destruct (Hf s).
  repeat split; assumption.
Qed.

Lemma keeps_fields_ret P {A} (a : A) : keeps_fields P (ret a).
Proof. apply keeps_fields_nothing. reflexivity. Qed.

Lemma keeps_fields_raise P {A} (e : exn) : keeps_fields P (@raise A e).
Proof. apply keeps_fields_nothing. reflexivity. Qed.

Lemma keeps_fields_lift P {A} (r : result A) : keeps_fields P (lift r).
Proof. apply keeps_fields_nothing. reflexivity. Qed.

Lemma keeps_fields_get_self P : keeps_fields P get_self.
Proof. apply keeps_fields_nothing. reflexivity. Qed.

Lemma keeps_fields_getitem P {V} (d : dict V) k : keeps_fields P (getitem d k).
Proof.
  apply keeps_fields_nothing. intros s. unfold getitem.
  destruct (dict_get k d); reflexivity.
Qed.

Lemma keeps_fields_log (P : attr -> bool) name a :
  P a = true -> keeps_fields P (log (Call name a)).
Proof.
  intros H s. simpl. repeat split. exists [Call name a]. split; auto.
Qed.

Lemma keeps_fields_set_steps P l : keeps_fields P (set_steps l).
Proof.
  intros s. simpl. repeat split. exists []. rewrite app_nil_r. auto.
Qed.

Lemma keeps_fields_bind P {A B} (m : M A) (k : A -> M B) :
  keeps_fields P m -> (forall a, keeps_fields P (k a)) ->
  keeps_fields P (bind m k).
Proof.
  intros Hm Hk s. rewrite bind_run.
  destruct (Hm s) as (H1 & H2 & H3 & evs & Hc & Hall).
  destruct (m s) as [[a|e] s1]; simpl in *.
  - destruct (Hk a s1) as (H1' & H2' & H3' & evs' & Hc' & Hall').
    split; [congruence|]. split; [congruence|]. split; [congruence|].
    exists (evs ++ evs'). split.
    + rewrite Hc', Hc, app_assoc. reflexivity.
    + apply Forall_app. auto.
  - repeat split; try assumption. exists evs. auto.
Qed.

Lemma keeps_fields_for_loop P {A S} (body : A -> S -> M S) (l : list A) :
  (forall x acc, keeps_fields P (body x acc)) ->
  forall acc, keeps_fields P (for_loop body l acc).
Proof.
  intros Hb. induction l as [|x l IH]; intros acc; simpl.
  - apply keeps_fields_ret.
  - apply keeps_fields_bind; auto.
Qed.

Create HintDb kf.
#[local] Hint Resolve keeps_fields_ret keeps_fields_raise keeps_fields_lift
  keeps_fields_get_self keeps_fields_getitem keeps_fields_set_steps : kf.

Ltac kf_step :=
  first
    [ apply keeps_fields_bind; [|intros]
    | solve [auto with kf]
    | apply keeps_fields_log; assumption
    | match goal with
      | |- keeps_fields _ (match ?x with _ => _ end) => destruct x
      | |- keeps_fields _ (if ?b then _ else _) => destruct b
      | |- keeps_fields _ (let '(_, _) := ?x in _) => destruct x
      end ].

Ltac kf := repeat kf_step.

Lemma keeps_fields_assign_step P idx v : keeps_fields P (assign_step idx v).
Proof. unfold assign_step. kf. Qed.

Lemma keeps_fields_call_fit P name e X y kw :
  P A_fit = true -> keeps_fields P (call_fit name e X y kw).
Proof. intros H. unfold call_fit. kf. Qed.

Lemma keeps_fields_call_fit_out P a m name e X y kw :
  P a = true -> keeps_fields P (call_fit_out a m name e X y kw).
Proof. intros H. unfold call_fit_out. kf. Qed.

Lemma keeps_fields_call_transform P name e X y :
  P A_transform = true -> keeps_fields P (call_transform name e X y).
Proof. intros H. unfold call_transform. kf. Qed.

Lemma keeps_fields_step_transform P name t X y :
  P A_transform = true -> keeps_fields P (step_transform name t X y).
Proof.
  intros H. destruct t; simpl; auto with kf.
  apply keeps_fields_call_transform; assumption.
Qed.

Lemma keeps_fields_final_estimator P : keeps_fields P _final_estimator.
Proof. unfold _final_estimator. kf. Qed.

Lemma keeps_fields_last_step P : keeps_fields P last_step.
Proof. unfold last_step. kf. Qed.

Lemma keeps_fields_validate P : keeps_fields P _validate_steps.
Proof. unfold _validate_steps. kf. Qed.

#[local] Hint Resolve keeps_fields_assign_step keeps_fields_final_estimator
  keeps_fields_last_step keeps_fields_validate : kf.

Lemma keeps_fields_fit_body P mem fps item loc :
  (forall a, is_fit_time_attr a = true -> P a = true) ->
  keeps_fields P (fit_body mem fps item loc).
Proof.
  intros HP. destruct item as [[idx name] t]. destruct loc as [[X y] fitted].
  unfold fit_body. destruct t as [| |e]; auto with kf.
  apply keeps_fields_bind.
  - destruct (_ && _); [|destruct (est_hasattr _ A_fit_resample)].
    + apply keeps_fields_bind; [auto with kf|intros kw].
      apply keeps_fields_bind; [|intros [X' f]; auto with kf].
      unfold _fit_transform_one.
      destruct (est_hasattr _ A_fit_transform).
      * apply keeps_fields_call_fit_out. apply HP. reflexivity.
      * apply keeps_fields_bind;
          [apply keeps_fields_call_fit; apply HP; reflexivity|intros f].
        apply keeps_fields_bind;
          [apply keeps_fields_call_transform; apply HP; reflexivity|intros r].
        auto with kf.
    + apply keeps_fields_bind; [auto with kf|intros kw].
      apply keeps_fields_bind; [|intros [[X' y'] f]; auto with kf].
      unfold _fit_resample_one.
      apply keeps_fields_bind;
        [apply keeps_fields_call_fit_out; apply HP; reflexivity|intros [out f]].
      kf.
    + auto with kf.
  - intros [[X' y'] f]. kf.
Qed.

Lemma keeps_fields_fit_ P X y kw :
  (forall a, is_fit_time_attr a = true -> P a = true) ->
  keeps_fields P (_fit X y kw).
Proof.
  intros HP. unfold _fit.
  apply keeps_fields_bind; [auto with kf|intros self].
  apply keeps_fields_bind; [auto with kf|intros _].
  apply keeps_fields_bind; [auto with kf|intros _].
  apply keeps_fields_bind; [auto with kf|intros fps].
  apply keeps_fields_bind.
  - apply keeps_fields_for_loop. intros. apply keeps_fields_fit_body. exact HP.
  - intros [[X' y'] f]. kf.
Qed.

Lemma keeps_fields_final_fit P t X y kw :
  P A_fit = true -> keeps_fields P (final_fit t X y kw).
Proof.
  intros H. unfold final_fit. destruct t as [| |e]; auto with kf.
  apply keeps_fields_bind; [auto with kf|intros [name t']].
  apply keeps_fields_bind; [apply keeps_fields_call_fit; assumption|intros e'].
  unfold store_final. kf.
Qed.

Lemma keeps_fields_final_fit_out P a sel t X y kw :
  P a = true -> keeps_fields P (final_fit_out a sel t X y kw).
Proof.
  intros H. unfold final_fit_out. destruct t as [| |e]; auto with kf.
  apply keeps_fields_bind; [auto with kf|intros [name t']].
  apply keeps_fields_bind;
    [apply keeps_fields_call_fit_out; assumption|intros [out e']].
  unfold store_final. kf.
Qed.

Lemma fit_time_to_fit_predict a :
  is_fit_time_attr a = true -> is_fit_predict_time_attr a = true.
Proof. destruct a; simpl; auto. Qed.

(** X5: [fit], [fit_transform], [fit_resample] and [fit_predict] never
    touch the memory setting or the bookkeeping fields [to_keep_ind] and
    [outliers], whatever the outcome, and the only methods they call on the
    steps are [fit], [transform], [fit_transform] and [fit_resample] (and
    [fit_predict] for [fit_predict]): fitting never predicts. *)
Theorem X5_fit_leaves_bookkeeping :
  forall X y kw,
    keeps_fields is_fit_time_attr (fit X y kw)
    /\ keeps_fields is_fit_time_attr (fit_transform X y kw)
    /\ keeps_fields is_fit_time_attr (fit_resample X y kw)
    /\ keeps_fields is_fit_predict_time_attr (fit_predict X y kw).
Proof.
  intros X y kw. split; [|split; [|split]].
  - unfold fit.
    apply keeps_fields_bind; [apply keeps_fields_fit_; auto|intros [[Xt yt] fp]].
    apply keeps_fields_bind; [auto with kf|intros fe].
    destruct (negb (eq_passthrough fe)); [|auto with kf].
    apply keeps_fields_final_fit. reflexivity.
  - unfold fit_transform.
    apply keeps_fields_bind; [auto with kf|intros last].
    apply keeps_fields_bind; [apply keeps_fields_fit_; auto|intros [[Xt yt] fp]].
    destruct (eq_passthrough last); [auto with kf|].
    destruct (hasattr last A_fit_transform).
    + apply keeps_fields_final_fit_out. reflexivity.
    + apply keeps_fields_bind; [apply keeps_fields_final_fit; reflexivity|intros _].
      apply keeps_fields_bind; [auto with kf|intros [name t]].
      apply keeps_fields_step_transform. reflexivity.
  - unfold fit_resample.
    apply keeps_fields_bind; [auto with kf|intros last].
    apply keeps_fields_bind; [apply keeps_fields_fit_; auto|intros [[Xt yt] fp]].
    destruct (eq_passthrough last); [auto with kf|].
    destruct (hasattr last A_fit_resample); [|auto with kf].
    apply keeps_fields_final_fit_out. reflexivity.
  - unfold fit_predict.
    apply keeps_fields_bind.
    { unfold if_delegate_has_method. kf. }
    intros _.
    apply keeps_fields_bind;
      [apply keeps_fields_fit_; apply fit_time_to_fit_predict|intros [[Xt yt] fp]].
    apply keeps_fields_bind; [auto with kf|intros [name t]].
    apply keeps_fields_final_fit_out. reflexivity.
Qed.

(** ** Fitting changes the state of the steps and nothing else about them *)

Lemma set_state_twice e a b : set_state (set_state e a) b = set_state e b.
Proof. reflexivity. Qed.

Lemma set_state_same e : set_state e (est_state e) = e.
Proof. destruct e. reflexivity. Qed.

Lemma refitted_refl t : refitted t t.
Proof.
  destruct t as [| |e]; simpl; auto.
  exists (est_state e). symmetry. apply set_state_same.
Qed.

Lemma refitted_trans t1 t2 t3 : refitted t1 t2 -> refitted t2 t3 -> refitted t1 t3.
Proof.
  destruct t1, t2, t3; simpl; try tauto.
  intros [a ->] [b ->]. exists b. reflexivity.
Qed.

Lemma same_step_refl p : same_step p p.
Proof. split; [reflexivity|apply refitted_refl]. Qed.

Lemma same_step_trans p1 p2 p3 :
  same_step p1 p2 -> same_step p2 p3 -> same_step p1 p3.
Proof.
  intros [H1 H2] [H3 H4]. split; [congruence|].
  eapply refitted_trans; eassumption.
Qed.

Lemma same_steps_refl l : Forall2 same_step l l.
Proof. induction l; constructor; auto using same_step_refl. Qed.

Lemma same_steps_trans l1 :
  forall l2 l3,
    Forall2 same_step l1 l2 -> Forall2 same_step l2 l3 -> Forall2 same_step l1 l3.
Proof.
  induction l1 as [|p l1 IH]; intros l2 l3 H12 H23.
  - inversion H12; subst. inversion H23; subst. constructor.
  - inversion H12; subst. inversion H23; subst.
    constructor; [eapply same_step_trans; eassumption|eauto].
Qed.

Lemma call_fit_refits name e X y kw s e' s' :
  call_fit name e X y kw s = (Ok e', s') -> exists st, e' = set_state e st.
Proof.
  unfold call_fit. destruct (m_fit e) as [f|]; [|discriminate].
  cbv beta iota delta [bind lift log ret].
  destruct (f (est_state e) X y kw) as [st|ex]; [|discriminate].
  intros E. injection E as <- _. eauto.
Qed.

Lemma call_fit_out_refits a m name e X y kw s out e' s' :
  call_fit_out a m name e X y kw s = (Ok (out, e'), s') ->
  exists st, e' = set_state e st.
Proof.
  unfold call_fit_out. destruct m as [f|]; [|discriminate].
  cbv beta iota delta [bind lift log ret].
  destruct (f (est_state e) X y kw) as [[o st]|ex]; [|discriminate].
  intros E. injection E as _ <- _. eauto.
Qed.

Lemma fit_transform_one_refits name e X y kw s X' f s' :
  _fit_transform_one name e X y kw s = (Ok (X', f), s') ->
  exists st, f = set_state e st.
Proof.
  unfold _fit_transform_one. destruct (est_hasattr e A_fit_transform).
  - apply call_fit_out_refits.
  - cbv beta iota delta [bind ret].
    destruct (call_fit name e X y kw s) as [[e1|ex] s1] eqn:Hf; [|discriminate].
    destruct (call_transform name e1 X None s1) as [[r|ex] s2]; [|discriminate].
    intros E. injection E as _ <- _. eapply call_fit_refits. exact Hf.
Qed.

Lemma fit_resample_one_refits name e X y kw s X' y' f s' :
  _fit_resample_one name e X y kw s = (Ok (X', y', f), s') ->
  exists st, f = set_state e st.
Proof.
  unfold _fit_resample_one. cbv beta iota delta [bind ret lift].
  destruct (call_fit_out _ _ name e X y kw s) as [[[out e1]|ex] s1] eqn:Hf;
    [|discriminate].
  destruct (unpack2 out) as [[a b]|ex]; [|discriminate].
  intros E. injection E as _ _ <- _. eapply call_fit_out_refits. exact Hf.
Qed.

Lemma fit_step_refits mem kw name e X y s X' y' f s' :
  fit_step mem kw name e X y s = (Ok (X', y', f), s') ->
  exists st, f = set_state e st.
Proof.
  unfold fit_step. intros H.
  assert (Hc : exists st, f = set_state (if mem then clone e else e) st).
  { destruct (est_hasattr _ A_fit_resample).
    - eapply fit_resample_one_refits. exact H.
    - revert H. cbv beta iota delta [bind ret].
      destruct (_fit_transform_one _ _ _ _ _ s) as [[[X1 f1]|ex] s1] eqn:Hf;
        [|discriminate].
      intros E. injection E as _ _ <- _.
      eapply fit_transform_one_refits. exact Hf. }
  destruct Hc as [st ->]. exists st. destruct mem; reflexivity.
Qed.

Lemma thread_steps_same mem fps final :
  forall todo done X y s,
    steps s = done ++ todo ++ [final] ->
    exists l', steps (snd (thread_steps mem fps done todo final X y s))
               = l' ++ [final]
               /\ Forall2 same_step (done ++ todo) l'.
Proof.
  induction todo as [|[name t] todo IH]; intros done X y s Hs.
  - simpl. exists done. rewrite app_nil_r in *. split; [exact Hs|].
    apply same_steps_refl.
  - destruct t as [| |e].
    + change (thread_steps mem fps done ((name, SNone) :: todo) final X y s)
        with (thread_steps mem fps (done ++ [(name, SNone)]) todo final X y s).
      destruct (IH (done ++ [(name, SNone)]) X y s) as (l' & Hl & Hf).
      { rewrite Hs, <- app_assoc. reflexivity. }
      exists l'. split; [exact Hl|]. rewrite <- app_assoc in Hf. exact Hf.
    + change (thread_steps mem fps done ((name, SPassthrough) :: todo) final
                X y s)
        with (thread_steps mem fps (done ++ [(name, SPassthrough)]) todo final
                X y s).
      destruct (IH (done ++ [(name, SPassthrough)]) X y s) as (l' & Hl & Hf).
      { rewrite Hs, <- app_assoc. reflexivity. }
      exists l'. split; [exact Hl|]. rewrite <- app_assoc in Hf. exact Hf.
    + simpl thread_steps. cbv beta iota delta [bind ret].
      pose proof (touches_getitem any_attr fps name s) as (Hs0 & _).
      destruct (getitem fps name s) as [[kw|ex] s0]; simpl in Hs0.
      * pose proof (touches_fit_step mem kw name e X y s0) as (Hs1 & _).
        destruct (fit_step mem kw name e X y s0) as [[[[X' y'] f]|ex] s1] eqn:Hfit;
          simpl in Hs1.
        -- destruct (fit_step_refits _ _ _ _ _ _ _ _ _ _ _ Hfit) as [st Hst].
           subst f.
           change (set_steps (done ++ (name, SEst (set_state e st))
                                :: todo ++ [final]) s1)
             with (@Ok unit tt,
                   with_steps s1 (done ++ (name, SEst (set_state e st))
                                    :: todo ++ [final])).
           cbv beta iota.
           destruct (IH (done ++ [(name, SEst (set_state e st))]) X' y'
                       (with_steps s1 (done ++ (name, SEst (set_state e st))
                                         :: todo ++ [final])))
             as (l' & Hl & Hf).
           { simpl. rewrite <- app_assoc. reflexivity. }
           exists l'. split; [exact Hl|].
           eapply same_steps_trans; [|exact Hf].
           rewrite <- app_assoc. simpl.
           apply Forall2_app; [apply same_steps_refl|].
           constructor; [|apply same_steps_refl].
           split; [reflexivity|]. simpl. eauto.
        -- simpl. exists (done ++ (name, SEst e) :: todo).
           rewrite <- app_assoc. split; [congruence|apply same_steps_refl].
      * simpl. exists (done ++ (name, SEst e) :: todo).
        rewrite <- app_assoc. split; [congruence|apply same_steps_refl].
Qed.

Lemma fit_same_steps X y kw s :
  Forall2 same_step (steps s) (steps (snd (_fit X y kw s)))
  /\ forall l final, steps s = l ++ [final] ->
       exists l', steps (snd (_fit X y kw s)) = l' ++ [final].
Proof.
  rewrite fit_refines. unfold _fit_spec, _validate_steps.
  cbv beta iota delta [bind get_self lift].
  assert (Hsame : Forall2 same_step (steps s) (steps s) /\
                  forall l final, steps s = l ++ [final] ->
                    exists l', steps s = l' ++ [final]).
  { split; [apply same_steps_refl|]. intros l final H. exists l. exact H. }
  destruct (validate_steps_of (steps s)) as [[]|ex]; [|exact Hsame].
  destruct (route_fit_params _ _) as [fps|ex]; [|exact Hsame].
  destruct (rev (steps s)) as [|final before] eqn:Hrev; [exact Hsame|].
  apply rev_cons_split in Hrev.
  pose proof (thread_steps_same (mem_location (memory s)) fps final
                (rev before) [] X y s Hrev) as (l' & Hl' & Hf).
  assert (Hgoal : forall s1,
            steps s1 = l' ++ [final] ->
            Forall2 same_step (steps s) (steps s1)
            /\ forall l fin, steps s = l ++ [fin] ->
                 exists l2, steps s1 = l2 ++ [fin]).
  { intros s1 Hs1. split.
    - rewrite Hs1, Hrev. apply Forall2_app; [exact Hf|].
      constructor; [apply same_step_refl|constructor].
    - intros l fin Hl. rewrite Hrev in Hl.
      apply app_inj_tail in Hl as [_ <-]. exists l'. exact Hs1. }
  destruct (thread_steps _ _ _ _ _ _ _ s) as [[[X' y']|ex] s1]; simpl in Hl'.
  - destruct (is_skip (snd final)); [apply Hgoal; exact Hl'|].
    unfold getitem. destruct (dict_get (fst final) fps); apply Hgoal; exact Hl'.
  - apply Hgoal. exact Hl'.
Qed.

Lemma assign_step_last l x v s :
  steps s = l ++ [x] ->
  assign_step (List.length (steps s) - 1) v s = set_steps (l ++ [v]) s.
Proof.
  intros Hs. rewrite Hs at 1. rewrite length_app. simpl.
  replace (List.length l + 1 - 1) with (List.length l) by lia.
  apply (assign_step_middle l x v [] s). exact Hs.
Qed.

Lemma final_fit_same_steps l name e X y kw s :
  steps s = l ++ [(name, SEst e)] ->
  Forall2 same_step (steps s) (steps (snd (final_fit (SEst e) X y kw s))).
Proof.
  intros Hs. unfold final_fit. cbv beta iota delta [bind].
  rewrite (last_step_last l (name, SEst e) s Hs).
  pose proof (touches_call_fit any_attr name e X y kw eq_refl s) as (Hst & _).
  destruct (call_fit name e X y kw s) as [[e'|ex] s1] eqn:Hf; simpl in Hst.
  - unfold store_final. cbv beta iota delta [bind get_self].
    rewrite (assign_step_last l (name, SEst e) _ s1) by congruence.
    simpl. rewrite Hs. apply Forall2_app; [apply same_steps_refl|].
    constructor; [|constructor]. split; [reflexivity|].
    simpl. eapply call_fit_refits. exact Hf.
  - simpl. rewrite Hst. apply same_steps_refl.
Qed.

Lemma fit_call_same_steps X y kw s :
  Forall2 same_step (steps s) (steps (snd (fit X y kw s))).
Proof.
  unfold fit. cbv beta iota delta [bind].
  destruct (fit_same_steps X y kw s) as [Hsame Hlast].
  destruct (_fit X y kw s) as [[[[Xt yt] fp]|ex] s1]; simpl in *; [|exact Hsame].
  destruct (rev (steps s1)) as [|[name t] r] eqn:Hrev.
  - unfold _final_estimator. cbv beta iota delta [bind get_self].
    rewrite Hrev. exact Hsame.
  - apply rev_cons_split in Hrev.
    rewrite (final_estimator_last (rev r) (name, t) s1 Hrev). simpl snd.
    destruct t as [| |e]; simpl; try exact Hsame.
    eapply same_steps_trans; [exact Hsame|].
    apply (final_fit_same_steps (rev r) name e). exact Hrev.
Qed.

(** ** Validation and exposure only look at names and capabilities *)

Lemma same_step_unfitted p p' :
  same_step p p' -> unfitted_step p = unfitted_step p'.
Proof.
  destruct p as [n t], p' as [n' t']. intros [Hn Hr]. simpl in *. subst n'.
  unfold unfitted_step. simpl. f_equal.
  destruct t, t'; simpl in *; try tauto. destruct Hr as [st ->]. reflexivity.
Qed.

Lemma same_steps_unfitted l l' :
  Forall2 same_step l l' -> map unfitted_step l = map unfitted_step l'.
Proof.
  induction 1 as [|p p' l l' Hp _ IH]; simpl; [reflexivity|].
  rewrite IH, (same_step_unfitted p p' Hp). reflexivity.
Qed.

Lemma hasattr_unfitted t a : hasattr (unfitted t) a = hasattr t a.
Proof. destruct t as [| |e]; [reflexivity|reflexivity|destruct a; reflexivity]. Qed.

Lemma check_transformer_unfitted t :
  check_transformer (unfitted t) = check_transformer t.
Proof.
  unfold check_transformer. rewrite !hasattr_unfitted.
  destruct t; reflexivity.
Qed.

Lemma check_final_unfitted t : check_final (unfitted t) = check_final t.
Proof.
  unfold check_final. rewrite hasattr_unfitted. destruct t; reflexivity.
Qed.

Lemma last_map {A B} (f : A -> B) (l : list A) d :
  last (map f l) (f d) = f (last l d).
Proof.
  induction l as [|a l IH]; [reflexivity|].
  destruct l as [|b l]; [reflexivity|]. exact IH.
Qed.

Lemma for_each_map {A B} (f : B -> result unit) (g : A -> B) (l : list A) :
  for_each f (map g l) = for_each (fun x => f (g x)) l.
Proof.
  induction l as [|a l IH]; simpl; [reflexivity|].
  destruct (f (g a)); [exact IH|reflexivity].
Qed.

Lemma validate_steps_of_cons p l :
  validate_steps_of (p :: l)
  = match _validate_names (map fst (p :: l)) with
    | Raise e => Raise e
    | Ok _ =>
        match for_each check_transformer (removelast (map snd (p :: l))) with
        | Raise e => Raise e
        | Ok _ => check_final (last (map snd (p :: l)) SNone)
        end
    end.
Proof. reflexivity. Qed.

Lemma validate_unfitted l :
  validate_steps_of (map unfitted_step l) = validate_steps_of l.
Proof.
  destruct l as [|p l]; [reflexivity|].
  change (map unfitted_step (p :: l))
    with (unfitted_step p :: map unfitted_step l).
  rewrite !validate_steps_of_cons.
  change (unfitted_step p :: map unfitted_step l)
    with (map unfitted_step (p :: l)).
  generalize (p :: l) as L. intros L.
  replace (map fst (map unfitted_step L)) with (map fst L)
    by (rewrite map_map; reflexivity).
  replace (map snd (map unfitted_step L)) with (map unfitted (map snd L))
    by (rewrite !map_map; reflexivity).
  destruct (_validate_names (map fst L)); [|reflexivity].
  rewrite removelast_map, for_each_map.
  rewrite (for_each_ext (fun x => check_transformer (unfitted x)) check_transformer)
    by (apply Forall_forall; intros; apply check_transformer_unfitted).
  destruct (for_each check_transformer _); [|reflexivity].
  change SNone with (unfitted SNone) at 1.
  rewrite last_map. apply check_final_unfitted.
Qed.

Lemma exposed_final a s before name t :
  steps s = before ++ [(name, t)] -> exposed a s = final_supports a t.
Proof.
  intros Hs. unfold exposed.
  destruct a; simpl getattr_public; simpl final_supports; try reflexivity;
    try (rewrite (if_delegate_run _ s before name t Hs);
         destruct (hasattr t _); reflexivity).
  unfold transform_property. cbv beta iota delta [bind].
  rewrite (final_estimator_last before (name, t) s Hs). unfold snd.
  rewrite eq_passthrough_norm.
  destruct t as [| |e]; simpl; try reflexivity.
  destruct (is_some (m_transform e)); reflexivity.
Qed.

Lemma exposed_empty a s s' :
  steps s = [] -> steps s' = [] -> exposed a s = exposed a s'.
Proof.
  intros H H'. unfold exposed.
  destruct a; simpl getattr_public; try reflexivity;
    unfold if_delegate_has_method, transform_property, _final_estimator;
    cbv beta iota delta [bind get_self]; rewrite H, H'; reflexivity.
Qed.

Lemma final_supports_unfitted a t :
  final_supports a (unfitted t) = final_supports a t.
Proof.
  destruct a; simpl; rewrite ?hasattr_unfitted; try reflexivity.
  destruct t; reflexivity.
Qed.

Lemma exposed_same_steps a s s' :
  Forall2 same_step (steps s) (steps s') -> exposed a s = exposed a s'.
Proof.
  intros H.
  destruct (rev (steps s)) as [|[n t] r] eqn:Hrev.
  - assert (Hs : steps s = []).
    { destruct (steps s); [reflexivity|].
      simpl in Hrev. apply app_eq_nil in Hrev as [_ Hrev]. discriminate. }
    rewrite Hs in H. inversion H as [E|]. apply exposed_empty; auto.
  - apply rev_cons_split in Hrev.
    rewrite Hrev in H. apply Forall2_app_inv_l in H as (l1 & l2 & H1 & H2 & E).
    inversion H2 as [|? p' ? ? Hp Hnil]; subst. inversion Hnil; subst.
    destruct p' as [n' t'].
    rewrite (exposed_final a s (rev r) n t Hrev).
    rewrite (exposed_final a s' l1 n' t' E).
    rewrite <- (final_supports_unfitted a t), <- (final_supports_unfitted a t').
    pose proof (same_step_unfitted _ _ Hp) as Hu.
    unfold unfitted_step in Hu. simpl in Hu. injection Hu as _ ->. reflexivity.
Qed.

(** X6: whatever its outcome, [_fit] leaves every step under its name and
    in its place, an object replaced only by the same object in another
    fitted state and [None]/['passthrough'] kept, and it leaves the last
    entry exactly as it was; [fit] does the same except that the final
    estimator too may be in another fitted state. *)
Theorem X6_fit_refits_steps_in_place :
  forall X y kw s,
    Forall2 same_step (steps s) (steps (snd (_fit X y kw s)))
    /\ (forall l final, steps s = l ++ [final] ->
          exists l', steps (snd (_fit X y kw s)) = l' ++ [final])
    /\ Forall2 same_step (steps s) (steps (snd (fit X y kw s))).
Proof.
  intros. destruct (fit_same_steps X y kw s) as [H1 H2].
  split; [exact H1|]. split; [exact H2|]. apply fit_call_same_steps.
Qed.

(** X7: after [fit], whatever its outcome, step validation gives what it
    gave before and the pipeline exposes the same methods: a pipeline that
    could be fitted or asked to predict still can. *)
Theorem X7_fit_keeps_validity_and_exposure :
  forall X y kw s,
    validate_steps_of (steps (snd (fit X y kw s))) = validate_steps_of (steps s)
    /\ forall a, exposed a (snd (fit X y kw s)) = exposed a s.
Proof.
  intros X y kw s. pose proof (fit_call_same_steps X y kw s) as H. split.
  - rewrite <- (validate_unfitted (steps s)), <- (validate_unfitted (steps (snd _))).
    rewrite (same_steps_unfitted _ _ H). reflexivity.
  - intros a. symmetry. apply exposed_same_steps. exact H.
Qed.

Lemma X6_fit_refits_steps_in_place_witness :
  steps sample_pipeline
  = [("sc", SEst scaler); ("rm", SEst remover)] ++ [("reg", SEst regressor)]
  /\ exists l', steps (snd (_fit rows3 rows3 [] sample_pipeline))
                = l' ++ [("reg", SEst regressor)].
Proof.
  split; [reflexivity|].
  apply (proj1 (proj2 (X6_fit_refits_steps_in_place rows3 rows3 []
                         sample_pipeline))
           [("sc", SEst scaler); ("rm", SEst remover)] ("reg", SEst regressor)).
  reflexivity.
Defined.

(** ** Fitting cannot fail on its own *)

Lemma well_behaved_set_state e st : well_behaved e -> well_behaved (set_state e st).
Proof. intros H. exact H. Qed.













(** ** Calling what the final step does not offer *)

(** X9: calling [predict], [predict_proba] or [fit_predict] on a pipeline
    whose final step lacks the method of that name, or [transform] on one
    whose final step is an object without [transform], raises
    [AttributeError] at once: no step is transformed or fitted and the
    pipeline is left as it was. *)
Theorem X9_missing_final_method :
  forall X y kw s before name t,
    steps s = before ++ [(name, t)] ->
    (hasattr t A_predict = false ->
     predict X kw s = (Raise AttributeError, s))
    /\ (hasattr t A_predict_proba = false ->
        predict_proba X kw s = (Raise AttributeError, s))
    /\ (hasattr t A_fit_predict = false ->
        fit_predict X y kw s = (Raise AttributeError, s))
    /\ (is_skip t = false -> hasattr t A_transform = false ->
        transform X y s = (Raise AttributeError, s)).
Proof.
  intros X y kw s before name t Hs. repeat split.
  - intros H. unfold predict. cbv beta iota delta [bind].
    rewrite (if_delegate_run A_predict s before name t Hs), H. reflexivity.
  - intros H. unfold predict_proba. cbv beta iota delta [bind].
    rewrite (if_delegate_run A_predict_proba s before name t Hs), H. reflexivity.
  - intros H. unfold fit_predict. cbv beta iota delta [bind].
    rewrite (if_delegate_run A_fit_predict s before name t Hs), H. reflexivity.
  - intros Hskip H. unfold transform, transform_property.
    cbv beta iota delta [bind].
    rewrite (final_estimator_last before (name, t) s Hs). unfold snd.
    rewrite eq_passthrough_norm, Hskip. simpl negb. cbv iota.
    replace (hasattr (none_as_passthrough t) A_transform) with false
      by (destruct t; simpl in *; congruence).
    reflexivity.
Qed.

(** ** A final step that is ['passthrough'] or [None] *)

(** X10: when the final step is ['passthrough'] or [None], [fit] does what
    [_fit] does and nothing more, and [fit_transform] and [fit_resample]
    both return the features that [_fit] produced: [fit_resample] returns
    them alone, without the labels. *)
Theorem X10_passthrough_final_step :
  forall X y kw s before name t,
    steps s = before ++ [(name, t)] ->
    is_skip t = true ->
    fit_transform X y kw s
    = (match fst (_fit X y kw s) with
       | Ok (Xt, _, _) => Ok Xt
       | Raise ex => Raise ex
       end, snd (_fit X y kw s))
    /\ fit_resample X y kw s = fit_transform X y kw s
    /\ fit X y kw s
       = (match fst (_fit X y kw s) with
          | Ok _ => Ok tt
          | Raise ex => Raise ex
          end, snd (_fit X y kw s)).
Proof.
  intros X y kw s before name t Hs Hskip.
  pose proof (final_estimator_last before (name, t) s Hs) as Hfe.
  simpl snd in Hfe.
  assert (Hpass : eq_passthrough (none_as_passthrough t) = true)
    by (rewrite eq_passthrough_norm; exact Hskip).
  assert (Hft : fit_transform X y kw s
                = (match fst (_fit X y kw s) with
                   | Ok (Xt, _, _) => Ok Xt
                   | Raise ex => Raise ex
                   end, snd (_fit X y kw s))).
  { unfold fit_transform. cbv beta iota delta [bind]. rewrite Hfe.
    cbv beta iota.
    destruct (_fit X y kw s) as [[[[Xt yt] fp]|ex] s1]; [|reflexivity].
    cbv beta iota. rewrite Hpass. reflexivity. }
  split; [exact Hft|]. split.
  - rewrite Hft. unfold fit_resample. cbv beta iota delta [bind]. rewrite Hfe.
    cbv beta iota.
    destruct (_fit X y kw s) as [[[[Xt yt] fp]|ex] s1]; [|reflexivity].
    cbv beta iota. rewrite Hpass. reflexivity.
  - unfold fit. cbv beta iota delta [bind].
    destruct (fit_same_steps X y kw s) as [_ Hlast].
    destruct (Hlast before (name, t) Hs) as [l' Hl'].
    destruct (_fit X y kw s) as [[[[Xt yt] fp]|ex] s1]; [|reflexivity].
    simpl in Hl'. rewrite (final_estimator_last l' (name, t) s1 Hl').
    cbn [snd]. rewrite Hpass. reflexivity.
Qed.

(** ** [transform] reads the pipeline and writes nothing *)

Lemma touches_transform_body item acc :
  touches is_transform_attr (transform_body item acc).
Proof.
  destruct item as [[idx name] t]. destruct acc as [Xt y]. unfold transform_body.
  apply touches_bind; [apply touches_step_transform; reflexivity|intros out].
  auto with touches.
Qed.

Lemma keeps_fields_transform_body item acc :
  keeps_fields is_transform_attr (transform_body item acc).
Proof.
  destruct item as [[idx name] t]. destruct acc as [Xt y]. unfold transform_body.
  apply keeps_fields_bind; [apply keeps_fields_step_transform; reflexivity|intros out].
  auto with kf.
Qed.

Lemma is_transform_attr_eq a : is_transform_attr a = true -> a = A_transform.
Proof. destruct a; simpl; congruence. Qed.

(** X11: [transform] only reads the pipeline: whatever the outcome, the
    steps, the memory and the bookkeeping fields are as before, and the only
    method called on a step is [transform]. *)
Theorem X11_transform_writes_nothing :
  forall X y s,
    steps (snd (transform X y s)) = steps s
    /\ memory (snd (transform X y s)) = memory s
    /\ to_keep_ind (snd (transform X y s)) = to_keep_ind s
    /\ outliers (snd (transform X y s)) = outliers s
    /\ exists evs, calls (snd (transform X y s)) = calls s ++ evs
                   /\ Forall (fun ev => event_attr ev = A_transform) evs.
Proof.
  intros X y s.
  assert (Ht : touches is_transform_attr (transform X y)).
  { unfold transform, transform_property, _transform.
    apply touches_bind.
    - apply touches_bind; [apply touches_final_estimator|intros fe].
      destruct (negb (eq_passthrough fe)); [|auto with touches].
      destruct (hasattr fe A_transform); auto with touches.
    - intros _. apply touches_bind; [auto with touches|intros self].
      apply touches_bind.
      + apply touches_for_loop. intros. apply touches_transform_body.
      + intros [Xt y']. auto with touches. }
  assert (Hk : keeps_fields is_transform_attr (transform X y)).
  { unfold transform, transform_property, _transform.
    apply keeps_fields_bind.
    - apply keeps_fields_bind; [auto with kf|intros fe].
      destruct (negb (eq_passthrough fe)); [|auto with kf].
      destruct (hasattr fe A_transform); auto with kf.
    - intros _. apply keeps_fields_bind; [auto with kf|intros self].
      apply keeps_fields_bind.
      + apply keeps_fields_for_loop. intros. apply keeps_fields_transform_body.
      + intros [Xt y']. auto with kf. }
  destruct (Ht s) as (H1 & H2 & _). destruct (Hk s) as (_ & H3 & H4 & evs & Hc & Hall).
  repeat split; try assumption.
  exists evs. split; [exact Hc|].
  revert Hall. apply Forall_impl. intros ev. apply is_transform_attr_eq.
Qed.

(** ** ['passthrough'] steps at prediction time *)

Lemma predict_loop_filter :
  forall l i j X s,
    for_loop predict_body (items_kept i l) X s
    = for_loop predict_body (items_kept j (filter not_skip l)) X s.
Proof.
  induction l as [|[name t] l IH]; intros i j X s; [reflexivity|].
  unfold items_kept at 1. cbn [enumerate_from flat_map].
  fold (items_kept (S i) l).
  cbn [filter]. unfold not_skip at 1. cbn [snd].
  destruct (negb (is_skip t)) eqn:Hk.
  - unfold items_kept at 2. cbn [enumerate_from flat_map].
    fold (items_kept (S j) (filter not_skip l)). rewrite Hk.
    cbn [app]. rewrite !for_loop_cons.
    assert (Hb : forall Xt s0, predict_body (i, name, t) Xt s0
                               = predict_body (j, name, t) Xt s0) by reflexivity.
    cbv beta iota delta [bind]. rewrite Hb.
    destruct (predict_body (j, name, t) X s) as [[X'|ex] s1]; [|reflexivity].
    apply IH.
  - cbn [app]. apply IH.
Qed.

Lemma predict_body_with_steps item Xt s l :
  predict_body item Xt (with_steps s l)
  = (fst (predict_body item Xt s), with_steps (snd (predict_body item Xt s)) l).
Proof.
  destruct item as [[idx name] t]. unfold predict_body.
  destruct (hasattr t A_fit_resample).
  - cbv beta iota delta [bind lift]. rewrite step_transform_with_steps.
    destruct (step_transform name t Xt None s) as [[out|ex] s1]; [|reflexivity].
    cbn [fst snd].
    destruct (unpack3 out) as [[[Xt' k] o]|ex]; [|reflexivity].
    destruct (negb (is_none k)); reflexivity.
  - apply step_transform_with_steps.
Qed.

Lemma predict_loop_with_steps l :
  forall items X s,
    for_loop predict_body items X (with_steps s l)
    = (fst (for_loop predict_body items X s),
       with_steps (snd (for_loop predict_body items X s)) l).
Proof.
  induction items as [|item items IH]; intros X s; [reflexivity|].
  rewrite !for_loop_cons. cbv beta iota delta [bind].
  rewrite predict_body_with_steps.
  destruct (predict_body item X s) as [[X'|ex] s1]; [|reflexivity].
  cbn [fst snd]. apply IH.
Qed.

Lemma touches_predict_loop items X :
  touches is_predict_time_attr (for_loop predict_body items X).
Proof. apply touches_for_loop. intros. apply touches_predict_body. Qed.

Lemma predict_like_without_skips a (sel : estimator -> option predict_method)
    X kw s before final :
  steps s = before ++ [final] ->
  (if_delegate_has_method a ;;
   self <- get_self ;;
   Xt <- for_loop predict_body (_iter (steps self) false true false) X ;;
   final_predict a sel Xt kw)
    (with_steps s (filter not_skip before ++ [final]))
  = (fst ((if_delegate_has_method a ;;
           self <- get_self ;;
           Xt <- for_loop predict_body (_iter (steps self) false true false) X ;;
           final_predict a sel Xt kw) s),
     with_steps
       (snd ((if_delegate_has_method a ;;
              self <- get_self ;;
              Xt <- for_loop predict_body (_iter (steps self) false true false) X ;;
              final_predict a sel Xt kw) s))
       (filter not_skip before ++ [final])).
Proof.
  intros Hs. destruct final as [name t].
  set (L := filter not_skip before ++ [(name, t)]).
  assert (HsL : steps (with_steps s L) = filter not_skip before ++ [(name, t)])
    by reflexivity.
  cbv beta iota delta [bind get_self].
  rewrite (if_delegate_run a s before name t Hs).
  rewrite (if_delegate_run a (with_steps s L) (filter not_skip before) name t HsL).
  destruct (hasattr t a); [|reflexivity].
  rewrite !iter_predict, HsL, Hs, !removelast_last.
  rewrite predict_loop_with_steps.
  rewrite <- (predict_loop_filter before 0 0 X s).
  pose proof (touches_predict_loop (items_kept 0 before) X s) as (Hst & _).
  destruct (for_loop predict_body (items_kept 0 before) X s) as [[Xt|ex] s1];
    [|reflexivity].
  cbn [fst snd] in *.
  unfold final_predict. cbv beta iota delta [bind].
  rewrite (last_step_last (filter not_skip before) (name, t) (with_steps s1 L))
    by reflexivity.
  rewrite (last_step_last before (name, t) s1) by congruence.
  destruct t as [| |e]; try reflexivity.
  unfold call_predict. destruct (sel e) as [f|]; [|reflexivity].
  cbv beta iota delta [bind lift log]. reflexivity.
Qed.

(** X12: intermediate steps that are ['passthrough'] or [None] play no
    part in [predict] and [predict_proba]: on the pipeline without them the
    call gives the same result, makes the same calls and leaves the same
    bookkeeping. *)
Theorem X12_predict_ignores_passthrough_steps :
  forall X kw s before final,
    steps s = before ++ [final] ->
    predict X kw (with_steps s (filter not_skip before ++ [final]))
    = (fst (predict X kw s),
       with_steps (snd (predict X kw s)) (filter not_skip before ++ [final]))
    /\ predict_proba X kw (with_steps s (filter not_skip before ++ [final]))
       = (fst (predict_proba X kw s),
          with_steps (snd (predict_proba X kw s))
            (filter not_skip before ++ [final])).
Proof.
  intros X kw s before final Hs. split.
  - apply (predict_like_without_skips A_predict m_predict X kw s before final Hs).
  - apply (predict_like_without_skips A_predict_proba m_predict_proba X kw s
             before final Hs).
Qed.

Lemma X9_missing_final_method_witness :
  steps sample_pipeline
  = [("sc", SEst scaler); ("rm", SEst remover)] ++ [("reg", SEst regressor)]
  /\ hasattr (SEst regressor) A_predict_proba = false
  /\ predict_proba rows3 [] sample_pipeline
     = (Raise AttributeError, sample_pipeline).
Proof.
  split; [reflexivity|]. split; [reflexivity|].
  apply (proj1 (proj2 (X9_missing_final_method rows3 rows3 [] sample_pipeline
                         [("sc", SEst scaler); ("rm", SEst remover)] "reg"
                         (SEst regressor) eq_refl))).
  reflexivity.
Defined.

Lemma X10_passthrough_final_step_witness :
  steps passthrough_final_pipeline
  = [("a", SEst scaler)] ++ [("out", SPassthrough)]
  /\ is_skip SPassthrough = true
  /\ fit_resample rows3 rows3 [] passthrough_final_pipeline
     = fit_transform rows3 rows3 [] passthrough_final_pipeline.
Proof.
  split; [reflexivity|]. split; [reflexivity|].
  apply (proj1 (proj2 (X10_passthrough_final_step rows3 rows3 []
                         passthrough_final_pipeline [("a", SEst scaler)]
                         "out" SPassthrough eq_refl eq_refl))).
Defined.

Lemma X12_predict_ignores_passthrough_steps_witness :
  steps skipping_pipeline
  = [("a", SEst scaler); ("skip", SPassthrough)] ++ [("reg", SEst regressor)]
  /\ fst (predict rows3 []
            (with_steps skipping_pipeline
               (filter not_skip [("a", SEst scaler); ("skip", SPassthrough)]
                  ++ [("reg", SEst regressor)])))
     = fst (predict rows3 [] skipping_pipeline).
Proof.
  split; [reflexivity|].
  rewrite (proj1 (X12_predict_ignores_passthrough_steps rows3 []
                    skipping_pipeline
                    [("a", SEst scaler); ("skip", SPassthrough)]
                    ("reg", SEst regressor) eq_refl)).
  reflexivity.
Defined.

(** ** Fitting with a cache starts from unfitted copies *)

Lemma ignores_steps_ret {A} (a : A) : ignores_steps (ret a).
Proof. intros s l. reflexivity. Qed.

Lemma ignores_steps_raise {A} (e : exn) : ignores_steps (@raise A e).
Proof. intros s l. reflexivity. Qed.

Lemma ignores_steps_lift {A} (r : result A) : ignores_steps (lift r).
Proof. intros s l. reflexivity. Qed.

Lemma ignores_steps_log ev : ignores_steps (log ev).
Proof. intros s l. reflexivity. Qed.

Lemma ignores_steps_bind {A B} (m : M A) (k : A -> M B) :
  ignores_steps m -> (forall a, ignores_steps (k a)) -> ignores_steps (bind m k).
Proof.
  intros Hm Hk s l. rewrite !bind_run, Hm.
  destruct (m s) as [[a|e] s1]; cbn [fst snd]; [apply Hk|reflexivity].
Qed.

Lemma ignores_steps_call_fit name e X y kw :
  ignores_steps (call_fit name e X y kw).
Proof.
  unfold call_fit. destruct (m_fit e); [|apply ignores_steps_raise].
  apply ignores_steps_bind; [apply ignores_steps_log|intros _].
  apply ignores_steps_bind; [apply ignores_steps_lift|intros st].
  apply ignores_steps_ret.
Qed.

Lemma ignores_steps_call_fit_out a m name e X y kw :
  ignores_steps (call_fit_out a m name e X y kw).
Proof.
  unfold call_fit_out. destruct m; [|apply ignores_steps_raise].
  apply ignores_steps_bind; [apply ignores_steps_log|intros _].
  apply ignores_steps_bind; [apply ignores_steps_lift|intros [out st]].
  apply ignores_steps_ret.
Qed.

Lemma ignores_steps_call_transform name e X y :
  ignores_steps (call_transform name e X y).
Proof.
  unfold call_transform. destruct (m_transform e); [|apply ignores_steps_raise].
  apply ignores_steps_bind; [apply ignores_steps_log|intros _].
  apply ignores_steps_lift.
Qed.

Lemma ignores_steps_fit_step mem kw name e X y :
  ignores_steps (fit_step mem kw name e X y).
Proof.
  unfold fit_step. destruct (est_hasattr _ A_fit_resample).
  - unfold _fit_resample_one.
    apply ignores_steps_bind; [apply ignores_steps_call_fit_out|intros [out f]].
    apply ignores_steps_bind; [apply ignores_steps_lift|intros [a b]].
    apply ignores_steps_ret.
  - apply ignores_steps_bind; [|intros [X' f]; apply ignores_steps_ret].
    unfold _fit_transform_one. destruct (est_hasattr _ A_fit_transform).
    + apply ignores_steps_call_fit_out.
    + apply ignores_steps_bind; [apply ignores_steps_call_fit|intros f].
      apply ignores_steps_bind; [apply ignores_steps_call_transform|intros r].
      apply ignores_steps_ret.
Qed.

Lemma with_steps_twice s l l' : with_steps (with_steps s l) l' = with_steps s l'.
Proof. reflexivity. Qed.

Lemma with_steps_same s : with_steps s (steps s) = s.
Proof. destruct s. reflexivity. Qed.

Lemma fit_step_cached kw name e st X y :
  fit_step true kw name (set_state e st) X y = fit_step true kw name e X y.
Proof. reflexivity. Qed.

Lemma thread_steps_est mem fps done name e todo final X y :
  thread_steps mem fps done ((name, SEst e) :: todo) final X y
  = bind (getitem fps name)
      (fun kw =>
         bind (fit_step mem kw name e X y)
           (fun '(X', y', fitted) =>
              bind (set_steps (done ++ (name, SEst fitted) :: todo ++ [final]))
                (fun _ => thread_steps mem fps (done ++ [(name, SEst fitted)])
                            todo final X' y'))).
Proof. reflexivity. Qed.

Lemma same_outcome_refl {A} (r : result A * pipeline) : same_outcome r r.
Proof. split; [reflexivity|]. intros; reflexivity. Qed.

Lemma same_outcome_raise {A} ex s1 s2 :
  same_outcome (@Raise A ex, s1) (@Raise A ex, s2).
Proof. split; [reflexivity|discriminate]. Qed.

Lemma thread_steps_cached fps final :
  forall todo todo2,
    Forall2 same_step todo todo2 ->
    forall done X y s,
      steps s = done ++ todo ++ [final] ->
      same_outcome
        (thread_steps true fps done todo final X y s)
        (thread_steps true fps done todo2 final X y
           (with_steps s (done ++ todo2 ++ [final]))).
Proof.
  induction 1 as [|[name t] [name2 t2] todo todo2 [Hn Hr] _ IH];
    intros done X y s Hs.
  - simpl. simpl in Hs. rewrite <- Hs, with_steps_same. apply same_outcome_refl.
  - simpl in Hn. subst name2. simpl in Hr.
    destruct t as [| |e], t2 as [| |e2]; try contradiction.
    + change (thread_steps true fps done ((name, SNone) :: todo2) final X y)
        with (thread_steps true fps (done ++ [(name, SNone)]) todo2 final X y).
      change (thread_steps true fps done ((name, SNone) :: todo) final X y)
        with (thread_steps true fps (done ++ [(name, SNone)]) todo final X y).
      replace (done ++ ((name, SNone) :: todo2) ++ [final])
        with ((done ++ [(name, SNone)]) ++ todo2 ++ [final])
        by (rewrite <- app_assoc; reflexivity).
      apply IH. rewrite Hs, <- app_assoc. reflexivity.
    + change (thread_steps true fps done ((name, SPassthrough) :: todo2) final X y)
        with (thread_steps true fps (done ++ [(name, SPassthrough)]) todo2 final
                X y).
      change (thread_steps true fps done ((name, SPassthrough) :: todo) final X y)
        with (thread_steps true fps (done ++ [(name, SPassthrough)]) todo final
                X y).
      replace (done ++ ((name, SPassthrough) :: todo2) ++ [final])
        with ((done ++ [(name, SPassthrough)]) ++ todo2 ++ [final])
        by (rewrite <- app_assoc; reflexivity).
      apply IH. rewrite Hs, <- app_assoc. reflexivity.
    + destruct Hr as [st ->].
      rewrite !thread_steps_est.
      cbv beta iota delta [bind].
      unfold getitem. destruct (dict_get name fps) as [kw|];
        [|apply same_outcome_raise].
      cbv beta iota delta [ret].
      rewrite fit_step_cached, ignores_steps_fit_step.
      destruct (fit_step true kw name e X y s) as [[[[X' y'] f]|ex] s1];
        cbn [fst snd]; [|apply same_outcome_raise].
      change (set_steps ?l ?s0) with (@Ok unit tt, with_steps s0 l).
      cbv beta iota. rewrite with_steps_twice.
      specialize (IH (done ++ [(name, SEst f)]) X' y'
                    (with_steps s1 (done ++ (name, SEst f) :: todo ++ [final]))).
      rewrite with_steps_twice in IH.
      replace ((done ++ [(name, SEst f)]) ++ todo2 ++ [final])
        with (done ++ (name, SEst f) :: todo2 ++ [final]) in IH
        by (rewrite <- app_assoc; reflexivity).
      apply IH. simpl. rewrite <- app_assoc. reflexivity.
Qed.

Lemma init_unfitted (l : list (string * step)) :
  init_fit_params_steps (map unfitted_step l) = init_fit_params_steps l.
Proof.
  unfold init_fit_params_steps.
  match goal with |- fold_left _ _ ?d0 = _ => generalize d0 end.
  induction l as [|[n t] l IH]; intros d; [reflexivity|].
  destruct t; simpl; apply IH.
Qed.

Lemma fit_cached X y kw s before before2 final :
  mem_location (memory s) = true ->
  steps s = before ++ [final] ->
  Forall2 same_step before before2 ->
  same_outcome (_fit X y kw s)
    (_fit X y kw (with_steps s (before2 ++ [final]))).
Proof.
  intros Hmem Hs Hsame.
  assert (Hall : Forall2 same_step (steps s) (before2 ++ [final])).
  { rewrite Hs. apply Forall2_app; [exact Hsame|].
    constructor; [apply same_step_refl|constructor]. }
  pose proof (same_steps_unfitted _ _ Hall) as Hu.
  rewrite !fit_refines. unfold _fit_spec, _validate_steps.
  cbv beta iota delta [bind get_self lift].
  cbn [steps memory with_steps].
  rewrite <- (validate_unfitted (before2 ++ [final])), <- Hu, validate_unfitted.
  rewrite <- (init_unfitted (before2 ++ [final])), <- Hu, init_unfitted.
  destruct (validate_steps_of (steps s)) as [[]|ex];
    [|apply same_outcome_raise].
  destruct (route_fit_params kw (init_fit_params_steps (steps s))) as [fps|ex];
    [|apply same_outcome_raise].
  rewrite Hs, !rev_app_distr.
  change (rev [final] ++ rev before) with (final :: rev before).
  change (rev [final] ++ rev before2) with (final :: rev before2).
  cbv beta iota. rewrite !rev_involutive, Hmem.
  destruct (thread_steps_cached fps final before before2 Hsame [] X y s Hs)
    as [H1 H2].
  cbn [app] in H1, H2.
  destruct (thread_steps true fps [] before final X y s) as [[[X' y']|ex] s1].
  - specialize (H2 _ eq_refl). cbn [fst snd] in *.
    destruct (thread_steps true fps [] before2 final X y _) as [r2 s2].
    cbn [fst snd] in *. subst r2 s2. apply same_outcome_refl.
  - cbn [fst] in H1.
    destruct (thread_steps true fps [] before2 final X y _) as [r2 s2].
    cbn [fst] in *. subst r2. apply same_outcome_raise.
Qed.

(** X13: with a cache location set, every intermediate step is fitted from
    an unfitted copy, so [fit] does not depend on the fitted state the
    intermediate steps are in: started from the same pipeline with those
    steps in any other fitted state it gives the same result and, when it
    returns, the same fitted pipeline. *)
Theorem X13_cached_fit_ignores_fitted_state :
  forall X y kw s before before2 final,
    mem_location (memory s) = true ->
    steps s = before ++ [final] ->
    Forall2 same_step before before2 ->
    same_outcome (fit X y kw s)
      (fit X y kw (with_steps s (before2 ++ [final]))).
Proof.
  intros X y kw s before before2 final Hmem Hs Hsame.
  destruct (fit_cached X y kw s before before2 final Hmem Hs Hsame) as [H1 H2].
  unfold fit. cbv beta iota delta [bind].
  destruct (_fit X y kw s) as [[v|ex] s1].
  - specialize (H2 v eq_refl). cbn [fst snd] in *.
    destruct (_fit X y kw (with_steps s (before2 ++ [final]))) as [r2 s2].
    cbn [fst snd] in *. subst r2 s2. apply same_outcome_refl.
  - cbn [fst] in H1.
    destruct (_fit X y kw (with_steps s (before2 ++ [final]))) as [r2 s2].
    cbn [fst] in H1. subst r2. apply same_outcome_raise.
Qed.

Lemma X13_cached_fit_ignores_fitted_state_witness :
  mem_location (memory cached_pipeline) = true
  /\ steps cached_pipeline = [("a", SEst scaler)] ++ [("reg", SEst regressor)]
  /\ Forall2 same_step [("a", SEst scaler)]
       [("a", SEst (set_state scaler (VInt 9)))]
  /\ same_outcome (fit rows3 rows3 [] cached_pipeline)
       (fit rows3 rows3 []
          (with_steps cached_pipeline
             ([("a", SEst (set_state scaler (VInt 9)))]
                ++ [("reg", SEst regressor)]))).
Proof.
  split; [reflexivity|]. split; [reflexivity|].
  assert (H : Forall2 same_step [("a", SEst scaler)]
                [("a", SEst (set_state scaler (VInt 9)))]).
  { constructor; [|constructor]. split; [reflexivity|].
    exists (VInt 9). reflexivity. }
  split; [exact H|].
  apply (X13_cached_fit_ignores_fitted_state rows3 rows3 [] cached_pipeline
           [("a", SEst scaler)] [("a", SEst (set_state scaler (VInt 9)))]
           ("reg", SEst regressor) eq_refl eq_refl H).
Defined.
